(** * Person search: matching strategies and rank fusion

    A shallow embedding of [backend/search/search_queries.py] (class
    [PersonSearch]) together with the properties of its search strategies
    and of [combined_search].

    Conventions of the model.
    - A Python [str] is represented by its UTF-8 encoding, a [string] of
      bytes.  Concatenation, comparison and the deletion of ASCII characters
      act on the bytes; lengths, slices and paddings count code points
      (module [Utf8]); [str.strip] removes the white space of Unicode.
      The case mapping [str.lower] is Unicode data that is not part of the
      sources: it is a parameter (class [PyBuiltins]), known only to
      lower-case the ASCII letters of a string of ASCII characters.
    - The [persons] table is the list of its rows, in the order in which the
      server scans them; a [SELECT ... WHERE c LIMIT n] is [take n (filter c
      db)].  The three name columns hold strings, possibly empty; [NULL] is
      outside the model.
    - The SQL operators that the queries use are modelled on the default
      (case-insensitive, NO PAD) collation: [=] and [LIKE] compare
      characters up to ASCII case.
    - [SOUNDEX] and [LEVENSHTEIN] are functions of the database server; the
      strategies are parameterised by them (class [SqlFunctions]).
      Reference instances of the two classes are used to evaluate examples,
      all of which are made of ASCII characters.
    - Scores are Python numbers.  The only non-integers are [30 / (d + 1)]
      for [d <= 3], that is 30, 15, 10 and 7.5, which binary floating point
      represents exactly, as it does every sum formed by [combined_search];
      scores are therefore rationals ([Q]) compared with [==]. *)

From Stdlib Require Import Ascii String QArith DecimalString Lqa.
From stdpp Require Import gmap strings list fin_maps sorting.

Open Scope string_scope.

(** ** Characters and Python string operations *)

Module Char.

Definition code (c : ascii) : N := N_of_ascii c.

Definition is_upper (c : ascii) : bool :=
  (65 <=? code c)%N && (code c <=? 90)%N.

Definition is_lower (c : ascii) : bool :=
  (97 <=? code c)%N && (code c <=? 122)%N.

Definition is_digit (c : ascii) : bool :=
  (48 <=? code c)%N && (code c <=? 57)%N.

(** The character class [[a-zA-Z0-9]] of the regular expression in
    [normalize_string]. *)
Definition is_alnum (c : ascii) : bool :=
  is_lower c || is_upper c || is_digit c.

(** Lower-case letters and digits: the characters that [normalize_string]
    can output. *)
Definition canonical (c : ascii) : bool := is_lower c || is_digit c.

(** [str.lower] on one character. *)
Definition lower (c : ascii) : ascii :=
  if is_upper c then ascii_of_N (code c + 32) else c.

(** The white space that [str.strip] removes is made of 29 code points.
    Those of one byte: U+0009 to U+000D, U+001C to U+001F and the space. *)
Definition is_space (c : ascii) : bool :=
  (9 <=? code c)%N && (code c <=? 13)%N
  || (28 <=? code c)%N && (code c <=? 32)%N.

(** Those of two bytes: U+0085 and U+00A0. *)
Definition is_space2 (a b : ascii) : bool :=
  (code a =? 194)%N && ((code b =? 133)%N || (code b =? 160)%N).

(** Those of three bytes: U+1680, U+2000 to U+200A, U+2028, U+2029, U+202F,
    U+205F and U+3000. *)
Definition is_space3 (a b c : ascii) : bool :=
  (code a =? 225)%N && (code b =? 154)%N && (code c =? 128)%N
  || (code a =? 226)%N && (code b =? 128)%N
     && ((128 <=? code c)%N && (code c <=? 138)%N
         || (code c =? 168)%N || (code c =? 169)%N || (code c =? 175)%N)
  || (code a =? 226)%N && (code b =? 129)%N && (code c =? 159)%N
  || (code a =? 227)%N && (code b =? 128)%N && (code c =? 128)%N.

(** A byte that is an ASCII character. *)
Definition is_ascii (c : ascii) : bool := (code c <? 128)%N.

(** A byte that continues the encoding of a code point. *)
Definition is_continuation (c : ascii) : bool :=
  (128 <=? code c)%N && (code c <? 192)%N.

(** Equality of two characters under a case-insensitive collation. *)
Definition ci_eqb (a b : ascii) : bool :=
  Ascii.eqb (lower a) (lower b).

End Char.

Module Str.

(** The ASCII capitals in lower case, every other byte as it is: [s.lower()]
    of a string of ASCII characters, and the case folding of the model of
    SQL. *)
Fixpoint lower (s : string) : string :=
  match s with
  | EmptyString => EmptyString
  | String c s' => String (Char.lower c) (lower s')
  end.

(** Keep the characters that satisfy [p]. *)
Fixpoint filter (p : ascii -> bool) (s : string) : string :=
  match s with
  | EmptyString => EmptyString
  | String c s' => if p c then String c (filter p s') else filter p s'
  end.

(** Every character of [s] satisfies [p]. *)
Fixpoint all (p : ascii -> bool) (s : string) : bool :=
  match s with
  | EmptyString => true
  | String c s' => p c && all p s'
  end.

(** What follows the first code point of [s], if that is white space. *)
Definition leading_space (s : string) : option string :=
  match s with
  | EmptyString => None
  | String a s1 =>
      if Char.is_space a then Some s1
      else
        match s1 with
        | EmptyString => None
        | String b s2 =>
            if Char.is_space2 a b then Some s2
            else
              match s2 with
              | EmptyString => None
              | String c s3 => if Char.is_space3 a b c then Some s3 else None
              end
        end
  end.

(** [s] is one code point of white space. *)
Definition is_space_point (s : string) : bool :=
  match leading_space s with
  | Some EmptyString => true
  | _ => false
  end.

(** At most [n] code points of white space removed from the left. *)
Fixpoint lstrip_upto (n : nat) (s : string) : string :=
  match n with
  | O => s
  | S n' =>
      match leading_space s with
      | Some rest => lstrip_upto n' rest
      | None => s
      end
  end.

(** [s.lstrip()] *)
Definition lstrip (s : string) : string := lstrip_upto (String.length s) s.

(** [s.rstrip()] *)
Fixpoint rstrip (s : string) : string :=
  match s with
  | EmptyString => EmptyString
  | String c s' =>
      let t := String c (rstrip s') in
      if is_space_point t then EmptyString else t
  end.

(** [s.strip()] *)
Definition strip (s : string) : string := rstrip (lstrip s).

(** [s[:n]] *)
Fixpoint slice_to (n : nat) (s : string) : string :=
  match n, s with
  | O, _ => EmptyString
  | S _, EmptyString => EmptyString
  | S n', String c s' => String c (slice_to n' s')
  end.

(** Truthiness of a string: [if s:] *)
Definition truthy (s : string) : bool :=
  match s with EmptyString => false | _ => true end.

(** [s.startswith(t)] *)
Fixpoint startswith (t s : string) : bool :=
  match t, s with
  | EmptyString, _ => true
  | String _ _, EmptyString => false
  | String a t', String b s' => Ascii.eqb a b && startswith t' s'
  end.

(** [t in s] *)
Fixpoint contains (t s : string) : bool :=
  startswith t s
  || match s with
     | EmptyString => false
     | String _ s' => contains t s'
     end.

(** [t.lower() in s.lower()] *)
Definition ci_contains (t s : string) : bool := contains (lower t) (lower s).

(** [s.lower().startswith(t.lower())] *)
Definition ci_startswith (t s : string) : bool := startswith (lower t) (lower s).

(** [t] occurs in [s] as a contiguous block. *)
Definition substring_of (t s : string) : Prop :=
  exists pre post, s = pre ++ t ++ post.

(** [s] starts with [t]. *)
Definition starts_with (t s : string) : Prop :=
  exists post, s = t ++ post.

End Str.

(** ** Code points of a UTF-8 string *)

Module Utf8.

(** [len(s)]: every byte but the continuation bytes starts a code point. *)
Fixpoint length (s : string) : nat :=
  match s with
  | EmptyString => O
  | String c s' => if Char.is_continuation c then length s' else S (length s')
  end.

(** [s[:n]]: the bytes of the first [n] code points. *)
Fixpoint take (n : nat) (s : string) : string :=
  match s with
  | EmptyString => EmptyString
  | String c s' =>
      if Char.is_continuation c then String c (take n s')
      else
        match n with
        | O => EmptyString
        | S n' => String c (take n' s')
        end
  end.

(** The rest of [s] after the continuation bytes at its head. *)
Fixpoint skip_continuation (s : string) : string :=
  match s with
  | EmptyString => EmptyString
  | String c s' => if Char.is_continuation c then skip_continuation s' else s
  end.

End Utf8.

(** The case mapping of Python, [s.lower()].  It follows the Unicode
    character database, which the sources do not contain; all that is used
    of it is its value on strings of ASCII characters. *)
Class PyBuiltins := {
  py_lower : string -> string;
  py_lower_ascii :
    forall s, Str.all Char.is_ascii s = true -> py_lower s = Str.lower s
}.

(** ** [normalize_string] *)

(** [re.sub(r'[^a-zA-Z0-9]', '', s).lower()] *)
Definition normalize_string (s : string) : string :=
  Str.lower (Str.filter Char.is_alnum s).

(** ** The SQL operators used by the queries *)

Module Sql.

(** [LOWER(s)] *)
Definition LOWER (s : string) : string := Str.lower s.

(** [REPLACE(s, c, '')] for a one-character string [c]: every occurrence of
    [c] is deleted. *)
Definition REPLACE_del (s : string) (c : ascii) : string :=
  Str.filter (fun x => negb (Ascii.eqb x c)) s.

(** [CONCAT(a, b)] *)
Definition CONCAT (a b : string) : string := a ++ b.

(** [a = b] *)
Definition eq (a b : string) : bool :=
  String.eqb (Str.lower a) (Str.lower b).

(** The pattern matcher of [LIKE]: [%] stands for any run of characters,
    [_] for any one character (all the bytes of a code point), and a
    backslash takes the next pattern character literally (at the end of the
    pattern it stands for itself). *)
Fixpoint like_pattern (p : string) : string -> bool :=
  match p with
  | EmptyString => fun s => negb (Str.truthy s)
  | String c p' =>
      if Ascii.eqb c "%" then
        fix any_run (s : string) : bool :=
          like_pattern p' s
          || match s with
             | EmptyString => false
             | String _ s' => any_run s'
             end
      else if Ascii.eqb c "_" then
        fun s =>
          match s with
          | EmptyString => false
          | String _ s' => like_pattern p' (Utf8.skip_continuation s')
          end
      else if Ascii.eqb c "\" then
        match p' with
        | EmptyString =>
            fun s =>
              match s with
              | String d EmptyString => Char.ci_eqb c d
              | _ => false
              end
        | String e p'' =>
            fun s =>
              match s with
              | EmptyString => false
              | String d s' => Char.ci_eqb e d && like_pattern p'' s'
              end
        end
      else
        fun s =>
          match s with
          | EmptyString => false
          | String d s' => Char.ci_eqb c d && like_pattern p' s'
          end
  end.

(** [s LIKE p] *)
Definition LIKE (s p : string) : bool := like_pattern p s.

(** The characters with a special meaning in a [LIKE] pattern. *)
Definition like_special (c : ascii) : bool :=
  Ascii.eqb c "%" || Ascii.eqb c "_" || Ascii.eqb c "\".

(** A string without such characters. *)
Definition like_plain (s : string) : bool :=
  Str.all (fun c => negb (like_special c)) s.

End Sql.

(** The two functions of the server whose code is not part of the Python
    sources: the built-in [SOUNDEX] and the stored function [LEVENSHTEIN]. *)
Class SqlFunctions := {
  SOUNDEX : string -> string;
  LEVENSHTEIN : string -> string -> nat
}.

(** ** Rows of the [persons] table *)

(** A row as [cursor(dictionary=True)] returns it.  [levenshtein_distance]
    is the key that [levenshtein_search] adds to the rows it keeps; it is
    absent ([None]) from a row as fetched. *)
Record person := {
  id : Z;
  first_name : string;
  last_name : string;
  full_name : string;
  email : string;
  levenshtein_distance : option nat
}.

#[global] Instance person_eq_dec : EqDecision person.
Proof. solve_decision. Defined.

(** [candidate['levenshtein_distance'] = d] *)
Definition set_distance (candidate : person) (d : nat) : person :=
  {| id := id candidate;
     first_name := first_name candidate;
     last_name := last_name candidate;
     full_name := full_name candidate;
     email := email candidate;
     levenshtein_distance := Some d |}.

#[global] Instance Qeq_decision (a b : Q) : Decision (a == b)%Q := Qeq_dec a b.

(** ** Python's stable sort *)

(** [sorted] and [list.sort] are stable.  [before x y] says that [x], which
    precedes [y] in the input, may stay in front of it: [key x <= key y] for
    an ascending sort and [key y <= key x] under [reverse=True].  Insertion
    from the right computes the stable order. *)
Fixpoint insert_sorted {A : Type} (before : A -> A -> bool) (x : A) (l : list A) : list A :=
  match l with
  | [] => [x]
  | y :: l' => if before x y then x :: l else y :: insert_sorted before x l'
  end.

Definition stable_sort {A : Type} (before : A -> A -> bool) (l : list A) : list A :=
  foldr (insert_sorted before) [] l.

(** [min(l)] of a list of numbers; [None] on the empty list. *)
Definition py_min (l : list nat) : option nat :=
  match l with
  | [] => None
  | x :: l' => Some (foldl Nat.min x l')
  end.

(** ** Calls and the interactive loop *)

(** How a call ends: with a value, or with an exception of the given class
    name. *)
Inductive outcome (A : Type) : Type :=
  | Returns (a : A)
  | Raises (exc : string).

Arguments Returns {A} a.
Arguments Raises {A} exc.

(** What one pass through the body of the [while True] loop of
    [interactive_search] does with the line read. *)
Inductive turn : Type :=
  | Quit
  | Skipped
  | Displayed (search_term : string) (results : outcome (list person)).

(** ** The search strategies of [PersonSearch] *)

Section Strategies.
Context `{SqlFunctions} `{PyBuiltins}.

(** The [WHERE] clause of [exact_search]. *)
Definition exact_where (search_term : string) (r : person) : bool :=
  Sql.eq (first_name r) search_term
  || Sql.eq (last_name r) search_term
  || Sql.eq (full_name r) search_term.

Definition exact_search (db : list person) (search_term : string) : list person :=
  take 10 (filter (fun r => exact_where search_term r = true) db).

(** The [WHERE] clause shared by [wildcard_search] and the candidate query
    of [levenshtein_search], for a given pattern. *)
Definition like_where (pattern : string) (r : person) : bool :=
  Sql.LIKE (first_name r) pattern
  || Sql.LIKE (last_name r) pattern
  || Sql.LIKE (full_name r) pattern.

Definition wildcard_search (db : list person) (search_term : string) : list person :=
  let wildcard_term := "%" ++ search_term ++ "%" in
  take 20 (filter (fun r => like_where wildcard_term r = true) db).

(** [REPLACE(REPLACE(REPLACE(LOWER(field), ' ', ''), "'", ''), '-', '')] *)
Definition sql_normalize (field : string) : string :=
  Sql.REPLACE_del (Sql.REPLACE_del (Sql.REPLACE_del (Sql.LOWER field) " ") "'") "-".

(** The [WHERE] clause of [normalized_search], for the normalized term. *)
Definition normalized_where (normalized : string) (r : person) : bool :=
  Sql.eq (sql_normalize (first_name r)) normalized
  || Sql.eq (sql_normalize (last_name r)) normalized
  || Sql.eq (sql_normalize (full_name r)) normalized.

Definition normalized_search (db : list person) (search_term : string) : list person :=
  let normalized := normalize_string search_term in
  take 20 (filter (fun r => normalized_where normalized r = true) db).

(** The [WHERE] clause of [soundex_search]. *)
Definition soundex_where (search_term : string) (r : person) : bool :=
  Sql.eq (SOUNDEX (first_name r)) (SOUNDEX search_term)
  || Sql.eq (SOUNDEX (last_name r)) (SOUNDEX search_term)
  || Sql.eq (SOUNDEX (Sql.CONCAT (first_name r) (last_name r)))
            (SOUNDEX (Sql.REPLACE_del search_term " ")).

Definition soundex_search (db : list person) (search_term : string) : list person :=
  take 20 (filter (fun r => soundex_where search_term r = true) db).

(** [search_term[:3] if len(search_term) >= 3 else search_term] *)
Definition first_chars (search_term : string) : string :=
  if (3 <=? Utf8.length search_term)%nat then Utf8.take 3 search_term
  else search_term.

(** The rows fetched by the candidate query of [levenshtein_search]. *)
Definition levenshtein_candidates (db : list person) (search_term : string) : list person :=
  filter (fun r => like_where (first_chars search_term ++ "%") r = true) db.

(** The inner loop of [levenshtein_search]: the distances to the fields of
    [candidate] that are not empty. *)
Definition field_distances (search_term : string) (candidate : person) : list nat :=
  foldl (fun distances field =>
           if Str.truthy field
           then (distances ++ [LEVENSHTEIN (py_lower search_term) (py_lower field)])%list
           else distances)
        [] [first_name candidate; last_name candidate; full_name candidate].

(** The body of the outer loop of [levenshtein_search]. *)
Definition levenshtein_keep (search_term : string) (max_distance : nat)
    (results : list person) (candidate : person) : list person :=
  match py_min (field_distances search_term candidate) with
  | Some m =>
      if (m <=? max_distance)%nat
      then (results ++ [set_distance candidate m])%list
      else results
  | None => results
  end.

(** The sort key [x['levenshtein_distance']]. *)
Definition distance_key (r : person) : nat :=
  default 0%nat (levenshtein_distance r).

(** The order of [results.sort(key=lambda x: x['levenshtein_distance'])]. *)
Definition by_distance (x y : person) : bool :=
  (distance_key x <=? distance_key y)%nat.

Definition levenshtein_search (db : list person) (search_term : string)
    (max_distance : nat) : list person :=
  let candidates := levenshtein_candidates db search_term in
  let results := foldl (levenshtein_keep search_term max_distance) [] candidates in
  take 20 (stable_sort by_distance results).

(** ** [combined_search] *)

(** The dictionary [results] keeps the order in which its keys were first
    inserted, which the final sort observes: an association list.  The
    dictionary [scores] is only looked up: a finite map. *)
Definition dict_mem (key : Z) (results : list (Z * person)) : bool :=
  existsb (fun kv => (kv.1 =? key)%Z) results.

(** [results[key] = r]: an existing key keeps its place. *)
Definition dict_set (key : Z) (r : person) (results : list (Z * person)) : list (Z * person) :=
  if dict_mem key results
  then map (fun kv => if (kv.1 =? key)%Z then (key, r) else kv) results
  else (results ++ [(key, r)])%list.

(** [if key not in results: results[key] = r] *)
Definition dict_setdefault (key : Z) (r : person) (results : list (Z * person)) : list (Z * person) :=
  if dict_mem key results then results else (results ++ [(key, r)])%list.

(** [scores.get(key, 0)] *)
Definition score_get (scores : gmap Z Q) (key : Z) : Q :=
  default 0%Q (scores !! key).

(** [scores[key] = scores.get(key, 0) + w] *)
Definition score_add (key : Z) (w : Q) (scores : gmap Z Q) : gmap Z Q :=
  <[key := (score_get scores key + w)%Q]> scores.

(** The state of the fusion loops: [results] and [scores]. *)
Definition fusion : Type := list (Z * person) * gmap Z Q.

(** The loop over [exact_results]. *)
Definition fuse_exact (st : fusion) (r : person) : fusion :=
  let key := id r in
  (dict_set key r st.1, score_add key 100 st.2).

(** The loops over the normalized, soundex and wildcard results, with the
    weight of the strategy. *)
Definition fuse_weighted (w : Q) (st : fusion) (r : person) : fusion :=
  let key := id r in
  (dict_setdefault key r st.1, score_add key w st.2).

(** [30 / (distance + 1)] with [distance = r.get('levenshtein_distance', 3)] *)
Definition levenshtein_weight (r : person) : Q :=
  let distance := default 3%nat (levenshtein_distance r) in
  (30 / inject_Z (Z.of_nat distance + 1))%Q.

(** The loop over [levenshtein_results]. *)
Definition fuse_levenshtein (st : fusion) (r : person) : fusion :=
  let key := id r in
  (dict_setdefault key r st.1, score_add key (levenshtein_weight r) st.2).

(** The state after the five loops. *)
Definition fused (db : list person) (search_term : string) : fusion :=
  let st := ([], ∅) in
  let st := foldl fuse_exact st (exact_search db search_term) in
  let st := foldl (fuse_weighted 80) st (normalized_search db search_term) in
  let st := foldl (fuse_weighted 60) st (soundex_search db search_term) in
  let st := foldl (fuse_weighted 40) st (wildcard_search db search_term) in
  foldl fuse_levenshtein st (levenshtein_search db search_term 3).

(** [sorted(results.items(), key=lambda x: scores[x[0]], reverse=True)] *)
Definition sorted_results (st : fusion) : list (Z * person) :=
  stable_sort (fun x y => Qle_bool (score_get st.2 y.1) (score_get st.2 x.1)) st.1.

Definition combined_search (db : list person) (search_term : string) : list person :=
  (fun r => r.2) <$> take 10 (sorted_results (fused db search_term)).

(** The total score that [combined_search] accumulates for a record id. *)
Definition total_score (db : list person) (search_term : string) (key : Z) : Q :=
  score_get (fused db search_term).2 key.

(** ** The interactive loop *)

(** A call of [combined_search]: the body has no [raise], and every key of
    [results] that the sort looks up in [scores] was stored there by the
    same loop iteration. *)
Definition combined_search_call (db : list person) (search_term : string) : outcome (list person) :=
  Returns (combined_search db search_term).

Definition interactive_turn (db : list person) (line : string) : turn :=
  let search_term := Str.strip line in
  if String.eqb (py_lower search_term) "quit" then Quit
  else if negb (Str.truthy search_term) then Skipped
  else Displayed search_term (combined_search_call db search_term).

(** The loop over the lines typed, up to [quit] or the end of the input:
    what each pass did. *)
Fixpoint interactive_search (db : list person) (inputs : list string) : list turn :=
  match inputs with
  | [] => []
  | line :: inputs' =>
      match interactive_turn db line with
      | Quit => []
      | t => t :: interactive_search db inputs'
      end
  end.

(** ** Notions used in the statements *)

(** The keys of [results] in insertion order: each id at its first
    occurrence in the sequence of rows that the five loops visit. *)
Definition key_step (seen : list Z) (key : Z) : list Z :=
  if bool_decide (key ∈ seen) then seen else (seen ++ [key])%list.

Definition first_occurrences (keys : list Z) : list Z :=
  foldl key_step [] keys.

Definition discovery_order (db : list person) (search_term : string) : list Z :=
  first_occurrences
    (id <$> (exact_search db search_term
             ++ normalized_search db search_term
             ++ soundex_search db search_term
             ++ wildcard_search db search_term
             ++ levenshtein_search db search_term 3)%list).

(** The weight [w] if the strategy returned a row with id [key]. *)
Definition credit (w : Q) (rows : list person) (key : Z) : Q :=
  if bool_decide (key ∈ id <$> rows) then w else 0%Q.

(** The weight of the row with id [key] among the rows that
    [levenshtein_search] returned. *)
Definition levenshtein_credit (rows : list person) (key : Z) : Q :=
  from_option levenshtein_weight 0%Q (List.find (fun r => (id r =? key)%Z) rows).

(** What the loops add to [scores] at [key] for a list of rows with the
    weights [w]. *)
Definition weight_sum (w : person -> Q) (rows : list person) (key : Z) : Q :=
  foldr (fun r acc => if bool_decide (id r = key) then (w r + acc)%Q else acc) 0%Q rows.

(** What one iteration of the outer loop of [levenshtein_search] keeps. *)
Definition levenshtein_kept (search_term : string) (max_distance : nat)
    (candidate : person) : option person :=
  match py_min (field_distances search_term candidate) with
  | Some m => if (m <=? max_distance)%nat then Some (set_distance candidate m) else None
  | None => None
  end.

(** The ids of the fused results in their final order, before the slice
    [[:10]]. *)
Definition ranking (db : list person) (search_term : string) : list Z :=
  (sorted_results (fused db search_term)).*1.

(** Every entry of [results] is stored under the id of its row, and has a
    score: the lookup [scores[x[0]]] of the final sort cannot fail. *)
Definition fusion_ok (st : fusion) : Prop :=
  Forall (fun kv => id kv.2 = kv.1 /\ is_Some (st.2 !! kv.1)) st.1.

(** The query is a case-insensitive substring of one of the three names. *)
Definition substring_where (search_term : string) (r : person) : bool :=
  Str.ci_contains search_term (first_name r)
  || Str.ci_contains search_term (last_name r)
  || Str.ci_contains search_term (full_name r).

(** One of the three names starts, up to case, with the prefix. *)
Definition prefix_where (prefix : string) (r : person) : bool :=
  Str.ci_startswith prefix (first_name r)
  || Str.ci_startswith prefix (last_name r)
  || Str.ci_startswith prefix (full_name r).

(** The names of a row that are not empty, and the distances from the
    query to them. *)
Definition nonempty_fields (r : person) : list string :=
  filter (fun f => Str.truthy f = true) [first_name r; last_name r; full_name r].

Definition nonempty_distances (search_term : string) (r : person) : list nat :=
  (fun f => LEVENSHTEIN (py_lower search_term) (py_lower f)) <$> nonempty_fields r.

(** [d] is the least element of [l]. *)
Definition is_min (d : nat) (l : list nat) : Prop :=
  d ∈ l /\ Forall (fun x => (d <= x)%nat) l.

(** Letters, digits, space, apostrophe and hyphen. *)
Definition name_char (c : ascii) : bool :=
  Char.is_alnum c || Ascii.eqb c " " || Ascii.eqb c "'" || Ascii.eqb c "-".

(** The three names of the row consist of such characters. *)
Definition plain_names (r : person) : bool :=
  Str.all name_char (first_name r)
  && Str.all name_char (last_name r)
  && Str.all name_char (full_name r).

(** The query and one of the three names have the same normal form. *)
Definition normalized_match (search_term : string) (r : person) : Prop :=
  normalize_string (first_name r) = normalize_string search_term
  \/ normalize_string (last_name r) = normalize_string search_term
  \/ normalize_string (full_name r) = normalize_string search_term.

#[global] Instance normalized_match_dec q r : Decision (normalized_match q r).
Proof. unfold normalized_match. apply _. Defined.

End Strategies.

(** ** A reference server *)

Module Reference.

(** The digit class of a lower-case letter, if it has one. *)
Definition soundex_digit (c : ascii) : option ascii :=
  if existsb (Ascii.eqb c) ["b"; "f"; "p"; "v"]%char then Some "1"%char
  else if existsb (Ascii.eqb c) ["c"; "g"; "j"; "k"; "q"; "s"; "x"; "z"]%char then Some "2"%char
  else if existsb (Ascii.eqb c) ["d"; "t"]%char then Some "3"%char
  else if Ascii.eqb c "l" then Some "4"%char
  else if existsb (Ascii.eqb c) ["m"; "n"]%char then Some "5"%char
  else if Ascii.eqb c "r" then Some "6"%char
  else None.

(** The digits of the letters after the first; [last] is the class of the
    previous coded letter, kept across [h] and [w] and across characters
    that are not letters, and forgotten at a vowel. *)
Fixpoint soundex_digits (last : option ascii) (s : string) : string :=
  match s with
  | EmptyString => EmptyString
  | String c s' =>
      let c := Char.lower c in
      if Char.is_lower c then
        match soundex_digit c with
        | Some d =>
            if bool_decide (last = Some d) then soundex_digits last s'
            else String d (soundex_digits (Some d) s')
        | None =>
            if Ascii.eqb c "h" || Ascii.eqb c "w" then soundex_digits last s'
            else soundex_digits None s'
        end
      else soundex_digits last s'
  end.

(** Modelled from the spec: the server's [SOUNDEX] built-in, as the phonetic
    coder of the specification describes it: the first letter, then the
    digit classes of the following letters with adjacent duplicates
    collapsed, padded with zeros or cut to three digits.  A string without
    a letter has the empty code. *)
Fixpoint soundex (s : string) : string :=
  match s with
  | EmptyString => EmptyString
  | String c s' =>
      let l := Char.lower c in
      if Char.is_lower l then
        String (ascii_of_N (Char.code l - 32))
               (Str.slice_to 3 (soundex_digits (soundex_digit l) s' ++ "000"))
      else soundex s'
  end.

(** One row of the edit-distance table: [up] runs over the previous row,
    [diag] and [left] are the neighbours of the cell being filled. *)
Fixpoint levenshtein_row (a : ascii) (t : string) (up : list nat) (diag left : nat) : list nat :=
  match t, up with
  | String b t', u :: up' =>
      let cost := if Char.ci_eqb a b then 0%nat else 1%nat in
      let cell := Nat.min (Nat.min (u + 1) (left + 1)) (diag + cost) in
      cell :: levenshtein_row a t' up' u cell
  | _, _ => []
  end.

Fixpoint levenshtein_rows (s t : string) (row : list nat) : list nat :=
  match s, row with
  | String a s', d :: up =>
      levenshtein_rows s' t ((d + 1)%nat :: levenshtein_row a t up d (d + 1))
  | _, _ => row
  end.

(** Modelled from the spec: the stored function [LEVENSHTEIN], which the
    Python sources call but do not define: the edit distance with unit
    costs for substitution, insertion and deletion, computed row by row,
    letters compared up to case. *)
Definition levenshtein (s t : string) : nat :=
  List.last (levenshtein_rows s t (seq 0 (S (String.length t)))) 0%nat.

#[global] Instance server : SqlFunctions :=
  {| SOUNDEX := soundex; LEVENSHTEIN := levenshtein |}.

(** The case mapping that leaves every byte outside ASCII as it is: what
    [s.lower()] is on the strings of ASCII characters of the examples. *)
#[global] Instance builtins : PyBuiltins :=
  {| py_lower := Str.lower; py_lower_ascii := fun s _ => eq_refl |}.

End Reference.

(** ** Sample tables *)

(** A row for the sample tables: the three names as [populate_database]
    relates them.  The e-mail address is read by no search. *)
Definition row (i : Z) (first last : string) : person :=
  {| id := i;
     first_name := first;
     last_name := last;
     full_name := first ++ " " ++ last;
     email := Str.lower first ++ "." ++ Str.lower last ++ "@example.com";
     levenshtein_distance := None |}.

(** The rows that [populate_database.py] inserts first, with the ids that
    an auto-increment key gives them. *)
Definition special_names : list (string * string) :=
  [("Mary", "Ann"); ("MaryAnn", "Smith"); ("John", "D'Souza"); ("John", "DSouza");
   ("Mirage Air", "Craft"); ("Mirage", "AirCraft"); ("Jean-Pierre", "Dubois");
   ("JeanPierre", "Dubois"); ("O'Brien", "Patrick"); ("OBrien", "Patrick");
   ("Anne-Marie", "Johnson"); ("AnneMarie", "Johnson"); ("Mac", "Donald");
   ("MacDonald", "James"); ("De La", "Cruz"); ("DeLa", "Cruz"); ("Van Der", "Berg");
   ("VanDer", "Berg"); ("St.", "James"); ("Saint", "James")].

Definition seeded : list person :=
  imap (fun i n => row (Z.of_nat (S i)) n.1 n.2) special_names.

(** Twenty-one namesakes, ids 1 to 21. *)
Definition namesakes : list person :=
  (fun i => row (Z.of_nat i) "Ann" "Lee") <$> seq 1 21.

(** Two namesakes that the server scans in the order 2, 1. *)
Definition scanned_2_1 : list person :=
  [row 2 "Ann" "Lee"; row 1 "Ann" "Kim"].

(** Twenty rows that only sound like the term [a\b], then a row with that
    first name, then a row that only contains [ab]. *)
Definition backslash_table : list person :=
  ((fun i => row (Z.of_nat i) "App" "Zed") <$> seq 1 20)
  ++ [row 21 "a\b" "a-b"; row 22 "Crab" "Zed"].

(** Twenty rows that sound like the term [a\b] and contain [ab], then a row
    with that first name. *)
Definition backslash_ties : list person :=
  ((fun i => row (Z.of_nat i) "Aab" "Zed") <$> seq 1 20)
  ++ [row 21 "a\b" "Zed"].

(** ** Further Python operations *)

(** [c * n] for a one-character string [c] *)
Fixpoint str_repeat (c : ascii) (n : nat) : string :=
  match n with
  | O => EmptyString
  | S n' => String c (str_repeat c n')
  end.

(** The format specification [:<width] on a string: padding with spaces on
    the right up to [width] code points, never cutting. *)
Definition ljust (width : nat) (s : string) : string :=
  s ++ str_repeat " " (width - Utf8.length s).

(** [str(z)] of an integer *)
Definition str_int (z : Z) : string :=
  DecimalString.NilZero.string_of_int (Z.to_int z).

(** [str(n)] of a length *)
Definition str_nat (n : nat) : string :=
  DecimalString.NilZero.string_of_uint (Nat.to_uint n).

(** ** [display_results] *)

(** The output is the sequence of the strings given to [print], each of which
    the interpreter ends with a newline. *)
Definition display_row (r : person) : string :=
  ljust 6 (str_int (id r)) ++ " " ++ ljust 20 (first_name r) ++ " "
  ++ ljust 20 (last_name r) ++ " " ++ ljust 30 (full_name r).

Definition display_header (results : list person) (search_term method : string) : list string :=
  [String "010" (str_repeat "=" 80);
   "Search Method: " ++ method;
   "Search Term: '" ++ search_term ++ "'";
   "Results Found: " ++ str_nat (length results);
   str_repeat "=" 80].

(** The two lines above the rows. *)
Definition display_columns : list string :=
  [String "010" (ljust 6 "ID" ++ " " ++ ljust 20 "First Name" ++ " "
                 ++ ljust 20 "Last Name" ++ " " ++ ljust 30 "Full Name");
   str_repeat "-" 6 ++ " " ++ str_repeat "-" 20 ++ " "
   ++ str_repeat "-" 20 ++ " " ++ str_repeat "-" 30].

Definition display_results (results : list person) (search_term method : string) : list string :=
  match results with
  | [] => (display_header results search_term method ++ ["No results found."])%list
  | _ =>
      (display_header results search_term method
       ++ display_columns ++ (display_row <$> take 10 results))%list
  end.

(** ** [populate_database] *)

(** [s.lower().replace(' ', '').replace("'", '')] *)
Definition email_part `{PyBuiltins} (s : string) : string :=
  Str.filter (fun x => negb (Ascii.eqb x "'"))
    (Str.filter (fun x => negb (Ascii.eqb x " ")) (py_lower s)).

(** The tuple [(first, last, full_name, email)] appended to [data]. *)
Definition data_row `{PyBuiltins} (first last : string) : string * string * string * string :=
  (first, last, first ++ " " ++ last,
   email_part first ++ "." ++ email_part last ++ "@example.com").

(** The random values that one pass of the generating loop consumes: which
    branch [random.random()] and [random.choice] select, and the names that
    Faker returns. *)
Inductive apostrophe_prefix : Type := O_apostrophe | D_apostrophe | L_apostrophe.

Inductive draw : Type :=
  | Regular (first last : string)
  | Compound (first1 first2 last : string)
  | Apostrophe (first : string) (prefix : apostrophe_prefix) (last : string)
  | Space (first1 first2 last : string).

Definition prefix_string (p : apostrophe_prefix) : string :=
  match p with
  | O_apostrophe => "O'"
  | D_apostrophe => "D'"
  | L_apostrophe => "L'"
  end.

(** The pair [(first_name, last_name)] that a pass generates. *)
Definition generated_name (d : draw) : string * string :=
  match d with
  | Regular first last => (first, last)
  | Compound first1 first2 last => (first1 ++ first2, last)
  | Apostrophe first prefix last => (first, prefix_string prefix ++ last)
  | Space first1 first2 last => (first1 ++ " " ++ Utf8.take 3 first2, last)
  end.

(** The list [data] that [populate_database] inserts, as a function of the
    random values of the passes: the special names, then
    [1000 - len(special_names)] generated names. *)
Definition populate_data `{PyBuiltins} (draws : nat -> draw) : list (string * string * string * string) :=
  (((fun n => data_row n.1 n.2) <$> special_names)
   ++ ((fun i => let n := generated_name (draws i) in data_row n.1 n.2)
         <$> seq 0 (1000 - length special_names)))%list.

(** The table after [TRUNCATE] and the insertion of [data]: the key [id]
    counts the rows from 1, in insertion order, which is also the order of
    the scan. *)
Definition stored (data : list (string * string * string * string)) : list person :=
  imap (fun i t =>
          {| id := Z.of_nat (S i);
             first_name := t.1.1.1;
             last_name := t.1.1.2;
             full_name := t.1.2;
             email := t.2;
             levenshtein_distance := None |}) data.

(** ** [run_test_searches] *)

(** The list [test_cases]: a search term and the variation it is expected to
    find. *)
Definition test_cases : list (string * string) :=
  [("MaryAnn", "Mary Ann"); ("Mary Ann", "MaryAnn"); ("D'Souza", "DSouza");
   ("DSouza", "D'Souza"); ("Mirage Air Craft", "Mirage AirCraft");
   ("Mirage AirCraft", "Mirage Air Craft"); ("Jean-Pierre", "JeanPierre");
   ("O'Brien", "OBrien"); ("MacDonald", "Mac Donald")].

(** One of the three names of the row is the string [name]. *)
Definition has_name (name : string) (r : person) : Prop :=
  first_name r = name \/ last_name r = name \/ full_name r = name.

#[global] Instance has_name_dec name r : Decision (has_name name r).
Proof. unfold has_name. apply _. Defined.

(** The rows of the four strategies that run before the EditDistance loop. *)
Definition found_before_levenshtein `{SqlFunctions} (db : list person)
    (search_term : string) : list person :=
  (exact_search db search_term ++ normalized_search db search_term
   ++ soundex_search db search_term ++ wildcard_search db search_term)%list.

(** * Properties *)

(** ** Characters *)

(** A statement about one character is checked on the 256 of them. *)
Ltac each_char c :=
  destruct c as [[] [] [] [] [] [] [] []]; vm_compute; try reflexivity; try discriminate; auto.

Lemma lower_alnum_canonical c :
  Char.is_alnum c = true -> Char.canonical (Char.lower c) = true.
Proof. each_char c. Qed.

Lemma canonical_alnum c : Char.canonical c = true -> Char.is_alnum c = true.
Proof. each_char c. Qed.

Lemma canonical_lower c : Char.canonical c = true -> Char.lower c = c.
Proof. each_char c. Qed.

Lemma lower_lower c : Char.lower (Char.lower c) = Char.lower c.
Proof. each_char c. Qed.

(** ** [normalize_string] *)

Lemma normalize_canonical s : Str.all Char.canonical (normalize_string s) = true.
Proof.
  unfold normalize_string.
  induction s as [|c s IH]; simpl; [reflexivity|].
  destruct (Char.is_alnum c) eqn:Hc; simpl; [|exact IH].
  now rewrite (lower_alnum_canonical c Hc), IH.
Qed.

Lemma normalize_fixed s : Str.all Char.canonical s = true -> normalize_string s = s.
Proof.
  unfold normalize_string.
  induction s as [|c s IH]; simpl; [reflexivity|].
  intros [Hc Hs]%andb_prop.
  rewrite (canonical_alnum c Hc). simpl.
  now rewrite (canonical_lower c Hc), (IH Hs).
Qed.

Lemma all_impl (p q : ascii -> bool) s :
  (forall c, p c = true -> q c = true) ->
  Str.all p s = true -> Str.all q s = true.
Proof.
  intros Hpq. induction s as [|c s IH]; simpl; [reflexivity|].
  intros [Hc Hs]%andb_prop. now rewrite (Hpq c Hc), (IH Hs).
Qed.

(** C9.  [normalize_string] is idempotent, and its output consists of
    lower-case ASCII letters and digits only; in particular it contains no
    space, apostrophe or hyphen. *)
Theorem normalize_idempotent (s : string) :
  normalize_string (normalize_string s) = normalize_string s
  /\ Str.all Char.canonical (normalize_string s) = true
  /\ Str.all (fun c => negb (Ascii.eqb c " " || Ascii.eqb c "'" || Ascii.eqb c "-"))
             (normalize_string s) = true.
Proof.
  split; [|split].
  - apply normalize_fixed, normalize_canonical.
  - apply normalize_canonical.
  - apply (all_impl Char.canonical); [|apply normalize_canonical].
    intros c. each_char c.
Qed.

(** ** The stable sort *)

Section StableSort.
Context {A : Type} (before : A -> A -> bool).

Lemma insert_sorted_perm x l : insert_sorted before x l ≡ₚ x :: l.
Proof.
  induction l as [|y l IH]; simpl; [reflexivity|].
  destruct (before x y); [reflexivity|].
  rewrite IH. apply Permutation_swap.
Qed.

Lemma stable_sort_perm l : stable_sort before l ≡ₚ l.
Proof.
  induction l as [|x l IH]; simpl; [reflexivity|].
  now rewrite insert_sorted_perm, IH.
Qed.

Lemma stable_sort_length l : length (stable_sort before l) = length l.
Proof. apply Permutation_length, stable_sort_perm. Qed.

Lemma stable_sort_elem x l : x ∈ stable_sort before l <-> x ∈ l.
Proof. now rewrite stable_sort_perm. Qed.

Hypothesis before_total : forall x y, before x y = false -> before y x = true.
Hypothesis before_trans :
  forall x y z, before x y = true -> before y z = true -> before x z = true.

Lemma insert_sorted_sorted x l :
  StronglySorted (fun a b => before a b = true) l ->
  StronglySorted (fun a b => before a b = true) (insert_sorted before x l).
Proof using before_total before_trans.
  induction 1 as [|y l Hl IH Hy]; simpl.
  - repeat constructor.
  - destruct (before x y) eqn:Hxy.
    + constructor; [now constructor|].
      constructor; [exact Hxy|].
      eapply Forall_impl; [exact Hy|]. intros z Hz. now apply (before_trans x y z).
    + constructor; [exact IH|].
      rewrite insert_sorted_perm. constructor; [now apply before_total | exact Hy].
Qed.

Lemma stable_sort_sorted l :
  StronglySorted (fun a b => before a b = true) (stable_sort before l).
Proof using before_total before_trans.
  induction l as [|x l IH]; simpl; [constructor|].
  now apply insert_sorted_sorted.
Qed.

End StableSort.

(** Stability: the elements of a class whose members may all stay in front
    of one another keep their input order. *)
Lemma insert_sorted_filter {A} (before : A -> A -> bool) (P : A -> Prop)
    `{!forall x, Decision (P x)} x l :
  (forall a b, P a -> P b -> before a b = true) ->
  filter P (insert_sorted before x l) = filter P (x :: l).
Proof.
  intros HP. induction l as [|y l IH]; simpl; [reflexivity|].
  destruct (before x y) eqn:Hxy; [reflexivity|].
  rewrite !filter_cons, IH, filter_cons.
  destruct (decide (P x)) as [Hx|Hx], (decide (P y)) as [Hy|Hy]; try reflexivity.
  rewrite (HP x y Hx Hy) in Hxy. discriminate.
Qed.

Lemma stable_sort_filter {A} (before : A -> A -> bool) (P : A -> Prop)
    `{!forall x, Decision (P x)} l :
  (forall a b, P a -> P b -> before a b = true) ->
  filter P (stable_sort before l) = filter P l.
Proof.
  intros HP. induction l as [|x l IH]; simpl; [reflexivity|].
  rewrite insert_sorted_filter by exact HP.
  now rewrite !filter_cons, IH.
Qed.

(** ** The dictionaries of [combined_search] *)

Lemma dict_mem_elem key (results : list (Z * person)) :
  dict_mem key results = true <-> key ∈ results.*1.
Proof.
  unfold dict_mem. rewrite existsb_exists, list_elem_of_fmap.
  split.
  - intros ([k r] & Hin & Hk). apply Z.eqb_eq in Hk. simpl in Hk. subst.
    exists (key, r). split; [reflexivity|]. now apply list_elem_of_In.
  - intros ([k r] & -> & Hin). exists (k, r).
    split; [now apply list_elem_of_In | apply Z.eqb_refl].
Qed.

Lemma dict_mem_decide key (results : list (Z * person)) :
  dict_mem key results = bool_decide (key ∈ results.*1).
Proof.
  apply eq_true_iff_eq. rewrite dict_mem_elem. symmetry. apply bool_decide_eq_true.
Qed.

Lemma dict_setdefault_keys key r results :
  (dict_setdefault key r results).*1 = key_step results.*1 key.
Proof.
  unfold dict_setdefault, key_step. rewrite dict_mem_decide.
  destruct (bool_decide _); [reflexivity|].
  now rewrite fmap_app.
Qed.

Lemma dict_set_keys key r results :
  (dict_set key r results).*1 = key_step results.*1 key.
Proof.
  unfold dict_set, key_step. rewrite dict_mem_decide.
  destruct (bool_decide _); [|now rewrite fmap_app].
  induction results as [|[k r'] results IH]; simpl; [reflexivity|].
  f_equal; [|exact IH].
  destruct (k =? key)%Z eqn:Hk; [|reflexivity].
  apply Z.eqb_eq in Hk. now subst.
Qed.

Section Fusion.
Context `{SqlFunctions} `{PyBuiltins}.

Lemma fuse_exact_keys st rows :
  (foldl fuse_exact st rows).1.*1 = foldl key_step st.1.*1 (id <$> rows).
Proof.
  revert st. induction rows as [|r rows IH]; intros st; simpl; [reflexivity|].
  rewrite IH. simpl. now rewrite dict_set_keys.
Qed.

Lemma fuse_weighted_keys w st rows :
  (foldl (fuse_weighted w) st rows).1.*1 = foldl key_step st.1.*1 (id <$> rows).
Proof.
  revert st. induction rows as [|r rows IH]; intros st; simpl; [reflexivity|].
  rewrite IH. simpl. now rewrite dict_setdefault_keys.
Qed.

Lemma fuse_levenshtein_keys st rows :
  (foldl fuse_levenshtein st rows).1.*1 = foldl key_step st.1.*1 (id <$> rows).
Proof.
  revert st. induction rows as [|r rows IH]; intros st; simpl; [reflexivity|].
  rewrite IH. simpl. now rewrite dict_setdefault_keys.
Qed.

(** The keys of [results], in insertion order, are the ids in the order of
    their first discovery. *)
Lemma fused_keys db search_term :
  (fused db search_term).1.*1 = discovery_order db search_term.
Proof.
  unfold fused, discovery_order, first_occurrences.
  rewrite fuse_levenshtein_keys, !fuse_weighted_keys, fuse_exact_keys.
  rewrite !fmap_app, !foldl_app. reflexivity.
Qed.

End Fusion.

(** ** The scores *)

Lemma score_get_add key w scores k :
  (score_get (score_add key w scores) k
   == score_get scores k + (if bool_decide (key = k) then w else 0))%Q.
Proof.
  unfold score_add, score_get.
  destruct (bool_decide (key = k)) eqn:Hk.
  - apply bool_decide_eq_true in Hk as ->. now rewrite lookup_insert_eq.
  - apply bool_decide_eq_false in Hk. rewrite lookup_insert_ne by exact Hk.
    now rewrite Qplus_0_r.
Qed.

(** A loop whose iterations add [w r] at [id r] adds [weight_sum w]. *)
Lemma fold_scores (step : fusion -> person -> fusion) (w : person -> Q) :
  (forall st r, (step st r).2 = score_add (id r) (w r) st.2) ->
  forall rows st k,
    (score_get (foldl step st rows).2 k == score_get st.2 k + weight_sum w rows k)%Q.
Proof.
  intros Hstep rows. induction rows as [|r rows IH]; intros st k; simpl.
  - now rewrite Qplus_0_r.
  - rewrite IH, Hstep, score_get_add.
    destruct (bool_decide (id r = k)); ring.
Qed.

Lemma weight_sum_absent w rows k : k ∉ id <$> rows -> weight_sum w rows k = 0%Q.
Proof.
  induction rows as [|r rows IH]; simpl; [reflexivity|].
  intros Hk. apply not_elem_of_cons in Hk as [Hr Hk].
  rewrite bool_decide_eq_false_2 by (intros E; apply Hr; now symmetry). now apply IH.
Qed.

Lemma weight_sum_find w rows k :
  NoDup (id <$> rows) ->
  (weight_sum w rows k == from_option w 0 (List.find (fun r => (id r =? k)%Z) rows))%Q.
Proof.
  induction rows as [|r rows IH]; simpl; [reflexivity|].
  intros [Hr Hrows]%NoDup_cons.
  destruct (bool_decide (id r = k)) eqn:Hk.
  - apply bool_decide_eq_true in Hk. subst k. rewrite Z.eqb_refl. simpl.
    rewrite (weight_sum_absent w rows (id r) Hr). ring.
  - apply bool_decide_eq_false in Hk.
    apply Z.eqb_neq in Hk. rewrite Hk. now apply IH.
Qed.

Lemma weight_sum_credit (w : Q) rows k :
  NoDup (id <$> rows) ->
  (weight_sum (fun _ => w) rows k == credit w rows k)%Q.
Proof.
  unfold credit. induction rows as [|r rows IH]; simpl; [reflexivity|].
  intros [Hr Hrows]%NoDup_cons.
  destruct (bool_decide (id r = k)) eqn:Hk.
  - apply bool_decide_eq_true in Hk. subst k.
    rewrite (weight_sum_absent _ rows (id r) Hr).
    rewrite bool_decide_eq_true_2 by apply list_elem_of_here. ring.
  - apply bool_decide_eq_false in Hk. rewrite (IH Hrows).
    destruct (decide (k ∈ id <$> rows)) as [Hin|Hin].
    + rewrite !bool_decide_eq_true_2; [reflexivity|now apply list_elem_of_further|exact Hin].
    + rewrite !bool_decide_eq_false_2; [reflexivity| |exact Hin].
      intros [E|E]%elem_of_cons; [apply Hk; now symmetry | now apply Hin].
Qed.

Section Scores.
Context `{SqlFunctions} `{PyBuiltins}.

(** The total of a record id is the sum, over the five result lists, of the
    weights of the rows with that id. *)
Lemma total_score_sum db q k :
  (total_score db q k
   == weight_sum (fun _ => 100) (exact_search db q) k
      + weight_sum (fun _ => 80) (normalized_search db q) k
      + weight_sum (fun _ => 60) (soundex_search db q) k
      + weight_sum (fun _ => 40) (wildcard_search db q) k
      + weight_sum levenshtein_weight (levenshtein_search db q 3) k)%Q.
Proof.
  unfold total_score, fused.
  rewrite (fold_scores fuse_levenshtein levenshtein_weight) by reflexivity.
  rewrite (fold_scores (fuse_weighted 40) (fun _ => 40%Q)) by reflexivity.
  rewrite (fold_scores (fuse_weighted 60) (fun _ => 60%Q)) by reflexivity.
  rewrite (fold_scores (fuse_weighted 80) (fun _ => 80%Q)) by reflexivity.
  rewrite (fold_scores fuse_exact (fun _ => 100%Q)) by reflexivity.
  unfold score_get at 1. simpl. rewrite lookup_empty. simpl. ring.
Qed.

(** A [SELECT ... LIMIT n] returns rows with distinct ids when the ids of
    the table are distinct. *)
Lemma select_NoDup (P : person -> Prop) `{!forall r, Decision (P r)} n db :
  NoDup (id <$> db) -> NoDup (id <$> take n (filter P db)).
Proof.
  intros Hdb. eapply sublist_NoDup; [exact Hdb|].
  apply fmap_sublist. etrans; [apply sublist_take | apply sublist_filter].
Qed.

Lemma levenshtein_keep_fold q max_distance acc candidates :
  foldl (levenshtein_keep q max_distance) acc candidates
  = (acc ++ omap (levenshtein_kept q max_distance) candidates)%list.
Proof.
  revert acc. induction candidates as [|c candidates IH]; intros acc; simpl.
  - now rewrite app_nil_r.
  - rewrite IH. unfold levenshtein_keep, levenshtein_kept.
    destruct (py_min _) as [m|]; [|reflexivity].
    destruct (m <=? max_distance)%nat; [|reflexivity].
    now rewrite <- app_assoc.
Qed.

(** The rows of [levenshtein_search] before the final slice. *)
Lemma levenshtein_search_unfold db q max_distance :
  levenshtein_search db q max_distance
  = take 20 (stable_sort by_distance
               (omap (levenshtein_kept q max_distance) (levenshtein_candidates db q))).
Proof. unfold levenshtein_search. now rewrite levenshtein_keep_fold. Qed.

Lemma levenshtein_kept_id q max_distance c r :
  levenshtein_kept q max_distance c = Some r -> id r = id c.
Proof.
  unfold levenshtein_kept. destruct (py_min _) as [m|]; [|discriminate].
  destruct (m <=? max_distance)%nat; [|discriminate]. now intros [= <-].
Qed.

Lemma omap_kept_ids q max_distance l :
  (id <$> omap (levenshtein_kept q max_distance) l) `sublist_of` (id <$> l).
Proof.
  induction l as [|c l IH]; simpl; [constructor|].
  destruct (levenshtein_kept q max_distance c) as [r|] eqn:Hr; simpl.
  - rewrite (levenshtein_kept_id _ _ _ _ Hr). now constructor.
  - now constructor.
Qed.

Lemma levenshtein_search_NoDup db q max_distance :
  NoDup (id <$> db) -> NoDup (id <$> levenshtein_search db q max_distance).
Proof.
  intros Hdb. rewrite levenshtein_search_unfold.
  eapply sublist_NoDup; [|apply fmap_sublist, sublist_take].
  rewrite stable_sort_perm.
  eapply sublist_NoDup; [|apply omap_kept_ids].
  eapply sublist_NoDup; [exact Hdb|]. apply fmap_sublist, sublist_filter.
Qed.

(** With distinct ids, every strategy that returns the record adds its
    weight once. *)
Lemma total_score_credits db q k :
  NoDup (id <$> db) ->
  (total_score db q k
   == credit 100 (exact_search db q) k
      + credit 80 (normalized_search db q) k
      + credit 60 (soundex_search db q) k
      + credit 40 (wildcard_search db q) k
      + levenshtein_credit (levenshtein_search db q 3) k)%Q.
Proof.
  intros Hdb. rewrite total_score_sum.
  rewrite !weight_sum_credit by (apply select_NoDup; exact Hdb).
  rewrite weight_sum_find by (apply levenshtein_search_NoDup; exact Hdb).
  reflexivity.
Qed.

End Scores.

(** ** Invariants of the fusion loops *)

Lemma dict_set_elem kv key r results :
  kv ∈ dict_set key r results -> kv ∈ results \/ kv = (key, r).
Proof.
  unfold dict_set. destruct (dict_mem key results).
  - intros (kv' & -> & Hin)%list_elem_of_fmap.
    destruct (kv'.1 =? key)%Z; [now right | now left].
  - intros [Hin | ->%list_elem_of_singleton]%elem_of_app; [now left | now right].
Qed.

Lemma dict_setdefault_elem kv key r results :
  kv ∈ dict_setdefault key r results -> kv ∈ results \/ kv = (key, r).
Proof.
  unfold dict_setdefault. destruct (dict_mem key results); [now left|].
  intros [Hin | ->%list_elem_of_singleton]%elem_of_app; [now left | now right].
Qed.

Lemma fusion_ok_step (st : fusion) (results : list (Z * person)) r w :
  fusion_ok st ->
  (forall kv, kv ∈ results -> kv ∈ st.1 \/ kv = (id r, r)) ->
  fusion_ok (results, score_add (id r) w st.2).
Proof.
  unfold fusion_ok. rewrite !Forall_forall. intros Hst Hres kv Hkv. simpl.
  unfold score_add. rewrite lookup_insert_is_Some.
  destruct (Hres kv Hkv) as [Hin | ->].
  - destruct (Hst kv Hin) as [Hid Hsc]. split; [exact Hid|].
    destruct (decide (id r = kv.1)); [now left | now right].
  - simpl. split; [reflexivity | now left].
Qed.

Section Invariants.
Context `{SqlFunctions} `{PyBuiltins}.

Lemma fuse_exact_ok st rows : fusion_ok st -> fusion_ok (foldl fuse_exact st rows).
Proof.
  revert st. induction rows as [|r rows IH]; intros st Hst; simpl; [exact Hst|].
  apply IH, fusion_ok_step; [exact Hst|]. intros kv. apply dict_set_elem.
Qed.

Lemma fuse_weighted_ok w st rows :
  fusion_ok st -> fusion_ok (foldl (fuse_weighted w) st rows).
Proof.
  revert st. induction rows as [|r rows IH]; intros st Hst; simpl; [exact Hst|].
  apply IH, fusion_ok_step; [exact Hst|]. intros kv. apply dict_setdefault_elem.
Qed.

Lemma fuse_levenshtein_ok st rows :
  fusion_ok st -> fusion_ok (foldl fuse_levenshtein st rows).
Proof.
  revert st. induction rows as [|r rows IH]; intros st Hst; simpl; [exact Hst|].
  apply IH, fusion_ok_step; [exact Hst|]. intros kv. apply dict_setdefault_elem.
Qed.

Lemma fused_ok db q : fusion_ok (fused db q).
Proof.
  unfold fused.
  apply fuse_levenshtein_ok, fuse_weighted_ok, fuse_weighted_ok, fuse_weighted_ok,
    fuse_exact_ok.
  constructor.
Qed.

End Invariants.

(** ** The final sort *)

Lemma Qle_bool_total a b : Qle_bool a b = false -> Qle_bool b a = true.
Proof.
  intros Hab. apply Qle_bool_iff.
  destruct (Qlt_le_dec b a) as [Hlt|Hle]; [now apply Qlt_le_weak|].
  apply Qle_bool_iff in Hle. congruence.
Qed.

Lemma Qle_bool_trans a b c :
  Qle_bool a b = true -> Qle_bool b c = true -> Qle_bool a c = true.
Proof. rewrite !Qle_bool_iff. apply Qle_trans. Qed.

Lemma StronglySorted_take {A} (R : A -> A -> Prop) n l :
  StronglySorted R l -> StronglySorted R (take n l).
Proof.
  intros Hl. rewrite <- (take_drop n l) in Hl.
  now apply StronglySorted_app_1_l in Hl.
Qed.

Lemma StronglySorted_fmap_strong {A B} (f : A -> B) (R : A -> A -> Prop)
    (S : B -> B -> Prop) l :
  (forall a b, a ∈ l -> b ∈ l -> R a b -> S (f a) (f b)) ->
  StronglySorted R l -> StronglySorted S (f <$> l).
Proof.
  intros HRS Hl. induction Hl as [|a l Hl IH Ha]; simpl; [constructor|].
  constructor.
  - apply IH. intros x y Hx Hy. apply HRS; now apply list_elem_of_further.
  - rewrite Forall_fmap. rewrite Forall_forall in Ha |- *. intros b Hb. simpl.
    apply HRS; [apply list_elem_of_here | now apply list_elem_of_further | now apply Ha].
Qed.

Section Ranking.
Context `{SqlFunctions} `{PyBuiltins}.

Lemma sorted_results_sorted st :
  StronglySorted
    (fun x y => Qle_bool (score_get st.2 y.1) (score_get st.2 x.1) = true)
    (sorted_results st).
Proof.
  apply (stable_sort_sorted
           (fun x y => Qle_bool (score_get st.2 y.1) (score_get st.2 x.1))).
  - intros x y. apply Qle_bool_total.
  - intros x y z Hxy Hyz. eapply Qle_bool_trans; eassumption.
Qed.

Lemma sorted_results_elem kv st : kv ∈ take 10 (sorted_results st) -> kv ∈ st.1.
Proof.
  intros Hkv%subseteq_take. unfold sorted_results in Hkv.
  now apply stable_sort_elem in Hkv.
Qed.

(** C4.  [combined_search] returns at most 10 rows (the top-K cutoff is the
    constant 10), in non-increasing order of the total score accumulated for
    their ids.  This holds for every query, hence for every non-empty one. *)
Theorem combined_search_top10_sorted (db : list person) (q : string) :
  length (combined_search db q) <= 10
  /\ StronglySorted
       (fun a b => (total_score db q (id b) <= total_score db q (id a))%Q)
       (combined_search db q).
Proof.
  unfold combined_search. split.
  - rewrite length_fmap, length_take. lia.
  - eapply StronglySorted_fmap_strong;
      [|apply StronglySorted_take, sorted_results_sorted].
    intros a b Ha%sorted_results_elem Hb%sorted_results_elem Hab. simpl in Hab.
    pose proof (fused_ok db q) as Hok. unfold fusion_ok in Hok.
    rewrite Forall_forall in Hok.
    destruct (Hok a Ha) as [-> _], (Hok b Hb) as [-> _].
    now apply Qle_bool_iff.
Qed.

(** The sort key of every entry of [results] is present in [scores]. *)
Lemma sort_keys_scored db q kv :
  kv ∈ (fused db q).1 -> is_Some ((fused db q).2 !! kv.1).
Proof.
  intros Hkv. pose proof (fused_ok db q) as Hok. unfold fusion_ok in Hok.
  rewrite Forall_forall in Hok. now destruct (Hok kv Hkv).
Qed.

Lemma filter_fmap_fst {B} (P : Z -> Prop) `{!forall k, Decision (P k)}
    (l : list (Z * B)) :
  filter P l.*1 = (filter (fun kv => P kv.1) l).*1.
Proof.
  induction l as [|kv l IH]; [reflexivity|].
  rewrite fmap_cons, !filter_cons, IH. simpl.
  now destruct (decide (P kv.1)).
Qed.

(** C1 (amended).  The fused results are sorted by total score, descending,
    by a stable sort: results with equal totals stay in the order in which
    their records were first discovered (the result lists of Exact,
    Normalized, Phonetic, Substring and EditDistance, one after the other).
    No tie is broken by record id. *)
Theorem ties_keep_discovery_order (db : list person) (q : string) :
  id <$> combined_search db q = take 10 (ranking db q)
  /\ StronglySorted (fun a b => (total_score db q b <= total_score db q a)%Q)
       (ranking db q)
  /\ forall s : Q,
       filter (fun k => (total_score db q k == s)%Q) (ranking db q)
       = filter (fun k => (total_score db q k == s)%Q) (discovery_order db q).
Proof.
  unfold ranking. split; [|split].
  - unfold combined_search. rewrite <- list_fmap_compose, <- fmap_take.
    apply Forall_fmap_ext_1, Forall_forall. intros kv Hkv%sorted_results_elem.
    pose proof (fused_ok db q) as Hok. unfold fusion_ok in Hok.
    rewrite Forall_forall in Hok. now destruct (Hok kv Hkv).
  - eapply StronglySorted_fmap_strong; [|apply sorted_results_sorted].
    intros a b _ _ Hab. now apply Qle_bool_iff.
  - intros s. rewrite <- fused_keys, !filter_fmap_fst. f_equal.
    apply (stable_sort_filter _ (fun kv => (total_score db q kv.1 == s)%Q)).
    intros a b Ha Hb. apply Qle_bool_iff. unfold total_score in Ha, Hb.
    rewrite Ha, Hb. apply Qle_refl.
Qed.

End Ranking.

(** C1, as stated, fails: two namesakes that the server returns in the order
    2, 1 have equal totals and come out in that order, not by ascending
    id. *)
Lemma equal_totals_not_by_id :
  id <$> combined_search scanned_2_1 "Ann" = [2; 1]%Z
  /\ (total_score scanned_2_1 "Ann" 2 == total_score scanned_2_1 "Ann" 1)%Q.
Proof. split; vm_compute; reflexivity. Qed.

(** The same happens in a table scanned by ascending id: row 21 is found by
    the exact match and rows 1 to 20 only later, by sound and by pattern, all
    with the total 100. *)
Example equal_totals_not_by_id_ascending_table :
  id <$> backslash_ties = Z.of_nat <$> seq 1 21
  /\ id <$> combined_search backslash_ties "a\b" = [21; 1; 2; 3; 4; 5; 6; 7; 8; 9]%Z
  /\ (total_score backslash_ties "a\b" 21 == 100)%Q
  /\ (total_score backslash_ties "a\b" 1 == 100)%Q.
Proof. repeat split; vm_compute; reflexivity. Qed.


(** ** Additive scores *)

Lemma credit_returned w (rows : list person) k : k ∈ id <$> rows -> credit w rows k = w.
Proof. intros Hk. unfold credit. now rewrite bool_decide_eq_true_2. Qed.

Lemma credit_absent w (rows : list person) k : k ∉ id <$> rows -> credit w rows k = 0%Q.
Proof. intros Hk. unfold credit. now rewrite bool_decide_eq_false_2. Qed.

Lemma levenshtein_credit_absent (rows : list person) k :
  k ∉ id <$> rows -> levenshtein_credit rows k = 0%Q.
Proof.
  intros Hk. unfold levenshtein_credit.
  destruct (List.find _ rows) as [r|] eqn:Hr; [|reflexivity].
  apply find_some in Hr as [Hin Hid]. apply Z.eqb_eq in Hid. subst k.
  exfalso. apply Hk, list_elem_of_fmap. exists r. split; [reflexivity|].
  now apply list_elem_of_In.
Qed.

Lemma levenshtein_credit_returned (rows : list person) r :
  NoDup (id <$> rows) -> r ∈ rows ->
  levenshtein_credit rows (id r) = levenshtein_weight r.
Proof.
  unfold levenshtein_credit.
  induction rows as [|r' rows IH]; simpl; [now intros _ ?%elem_of_nil|].
  intros [Hr' Hrows]%NoDup_cons [->|Hin]%elem_of_cons.
  - now rewrite Z.eqb_refl.
  - destruct (id r' =? id r)%Z eqn:Hid; [|now apply IH].
    apply Z.eqb_eq in Hid. exfalso. apply Hr'. rewrite Hid.
    apply list_elem_of_fmap. now exists r.
Qed.


(** ** Python string tests *)

Lemma startswith_spec t s : Str.startswith t s = true <-> Str.starts_with t s.
Proof.
  unfold Str.starts_with. revert s.
  induction t as [|a t IH]; intros s; simpl.
  - split; [intros _; now exists s | reflexivity].
  - destruct s as [|b s]; simpl.
    + split; [discriminate | intros [post [=]]].
    + rewrite andb_true_iff, IH. split.
      * intros [->%Ascii.eqb_eq [post ->]]. now exists post.
      * intros [post [= -> ->]]. split; [apply Ascii.eqb_refl | now exists post].
Qed.

Lemma contains_spec t s : Str.contains t s = true <-> Str.substring_of t s.
Proof.
  unfold Str.substring_of.
  induction s as [|b s IH].
  - simpl. rewrite orb_false_r, startswith_spec. split.
    + intros [post ->]. now exists "", post.
    + intros ([|c pre] & post & Heq); [now exists post | discriminate].
  - cbn [Str.contains]. rewrite orb_true_iff, startswith_spec, IH. split.
    + intros [[post ->] | (pre & post & ->)].
      * now exists "", post.
      * now exists (String b pre), post.
    + intros ([|c pre] & post & Heq).
      * left. now exists post.
      * right. injection Heq as -> ->. now exists pre, post.
Qed.

(** ** [LIKE] with a pattern built from plain text *)

Lemma like_any s : Sql.like_pattern "%" s = true.
Proof. induction s as [|c s IH]; [reflexivity|]. simpl in *. now rewrite IH. Qed.

Lemma like_plain_cons c t :
  Sql.like_plain (String c t) = true ->
  Ascii.eqb c "%" = false /\ Ascii.eqb c "_" = false /\ Ascii.eqb c "\" = false
  /\ Sql.like_plain t = true.
Proof.
  unfold Sql.like_plain, Sql.like_special. simpl.
  intros [Hc Ht]%andb_prop.
  destruct (Ascii.eqb c "%"), (Ascii.eqb c "_"), (Ascii.eqb c "\"); try discriminate.
  auto.
Qed.

(** A plain text followed by [%] matches the strings that start with the
    text, up to case. *)
Lemma like_prefix t s :
  Sql.like_plain t = true ->
  Sql.LIKE s (t ++ "%") = Str.ci_startswith t s.
Proof.
  unfold Sql.LIKE, Str.ci_startswith. revert s.
  induction t as [|c t IH]; intros s Ht.
  - apply like_any.
  - apply like_plain_cons in Ht as (H1 & H2 & H3 & Ht).
    simpl. rewrite H1, H2, H3.
    destruct s as [|d s]; [reflexivity|].
    simpl. now rewrite (IH s Ht).
Qed.

Lemma like_percent_step p s :
  Sql.like_pattern (String "%" p) s
  = Sql.like_pattern p s
    || match s with
       | EmptyString => false
       | String _ s' => Sql.like_pattern (String "%" p) s'
       end.
Proof. destruct s; reflexivity. Qed.

(** The same text between two [%] matches the strings that contain it, up
    to case. *)
Lemma like_infix t s :
  Sql.like_plain t = true ->
  Sql.LIKE s ("%" ++ t ++ "%") = Str.ci_contains t s.
Proof.
  intros Ht. unfold Sql.LIKE, Str.ci_contains.
  change ("%" ++ t ++ "%") with (String "%" (t ++ "%")).
  induction s as [|d s IH]; rewrite like_percent_step; [|rewrite IH];
    match goal with
    | |- context [Sql.like_pattern (t ++ "%") ?x] =>
        change (Sql.like_pattern (t ++ "%") x) with (Sql.LIKE x (t ++ "%"))
    end;
    rewrite like_prefix by exact Ht; reflexivity.
Qed.

(** ** The Substring strategy *)

Lemma wildcard_where_plain q r :
  Sql.like_plain q = true ->
  like_where ("%" ++ q ++ "%") r = substring_where q r.
Proof.
  intros Hq. unfold like_where, substring_where. now rewrite !like_infix by exact Hq.
Qed.

Lemma ci_contains_spec t s :
  Str.ci_contains t s = true <-> Str.substring_of (Str.lower t) (Str.lower s).
Proof. apply contains_spec. Qed.

Section Substring.
Context `{SqlFunctions} `{PyBuiltins}.

(** C8 (amended).  For every query that contains none of the characters
    [%], [_] and backslash, the Substring strategy returns the first 20
    rows, in scan order, in which the query is a case-insensitive substring
    of first_name, last_name or full_name; with distinct record ids every
    returned record has 40 added to its total. *)
Theorem wildcard_plain_substring (db : list person) (q : string) :
  Sql.like_plain q = true ->
  NoDup (id <$> db) ->
  wildcard_search db q = take 20 (filter (fun r => substring_where q r = true) db)
  /\ (forall r, substring_where q r = true <->
        Str.substring_of (Str.lower q) (Str.lower (first_name r))
        \/ Str.substring_of (Str.lower q) (Str.lower (last_name r))
        \/ Str.substring_of (Str.lower q) (Str.lower (full_name r)))
  /\ (forall r, r ∈ wildcard_search db q ->
        (total_score db q (id r)
         == credit 100 (exact_search db q) (id r)
            + credit 80 (normalized_search db q) (id r)
            + credit 60 (soundex_search db q) (id r)
            + 40
            + levenshtein_credit (levenshtein_search db q 3) (id r))%Q).
Proof.
  intros Hq Hdb. split; [|split].
  - unfold wildcard_search. f_equal. apply list_filter_iff. intros r.
    now rewrite wildcard_where_plain.
  - intros r. unfold substring_where.
    rewrite !orb_true_iff, !ci_contains_spec. tauto.
  - intros r Hr. rewrite total_score_credits by exact Hdb.
    rewrite (credit_returned 40 (wildcard_search db q)); [reflexivity|].
    apply list_elem_of_fmap. now exists r.
Qed.

End Substring.

(** An instance of C8: the seeded rows searched for [Ann]. *)
Lemma wildcard_plain_substring_witness :
  wildcard_search seeded "Ann"
  = take 20 (filter (fun r => substring_where "Ann" r = true) seeded).
Proof.
  apply (wildcard_plain_substring seeded "Ann"); [reflexivity | compute_done].
Defined.

(** C8, as stated, fails on a query with an underscore: [J_hn] is returned
    for John Smith, in none of whose names it occurs. *)
Lemma wildcard_underscore_not_substring :
  wildcard_search [row 1 "John" "Smith"] "J_hn" = [row 1 "John" "Smith"]
  /\ ~ (Str.substring_of (Str.lower "J_hn") (Str.lower "John")
        \/ Str.substring_of (Str.lower "J_hn") (Str.lower "Smith")
        \/ Str.substring_of (Str.lower "J_hn") (Str.lower "John Smith")).
Proof.
  split; [reflexivity|].
  rewrite <- !contains_spec. vm_compute. intros [|[|]]; discriminate.
Qed.

(** ** The candidates of the EditDistance strategy *)

Lemma utf8_take_all n s : (Utf8.length s <= n)%nat -> Utf8.take n s = s.
Proof.
  revert n. induction s as [|c s IH]; intros n; simpl; [reflexivity|].
  destruct (Char.is_continuation c).
  - intros Hlen. now rewrite IH.
  - destruct n as [|n]; [lia|]. intros Hlen. rewrite IH; [reflexivity | lia].
Qed.

Lemma utf8_take_length n s :
  (n <= Utf8.length s)%nat -> Utf8.length (Utf8.take n s) = n.
Proof.
  revert n. induction s as [|c s IH]; intros n; simpl.
  - lia.
  - destruct (Char.is_continuation c) eqn:Hc; simpl; rewrite ?Hc.
    + apply IH.
    + destruct n as [|n]; [reflexivity|]. intros Hlen. simpl. rewrite Hc, IH; [reflexivity | lia].
Qed.

Lemma first_chars_take q : first_chars q = Utf8.take 3 q.
Proof.
  unfold first_chars. destruct (3 <=? Utf8.length q)%nat eqn:Hlen; [reflexivity|].
  apply Nat.leb_gt in Hlen. rewrite utf8_take_all; [reflexivity | lia].
Qed.

Lemma prefix_where_plain t r :
  Sql.like_plain t = true -> like_where (t ++ "%") r = prefix_where t r.
Proof.
  intros Ht. unfold like_where, prefix_where. now rewrite !like_prefix by exact Ht.
Qed.

Lemma ci_startswith_spec t s :
  Str.ci_startswith t s = true <-> Str.starts_with (Str.lower t) (Str.lower s).
Proof. apply startswith_spec. Qed.

Section Candidates.
Context `{SqlFunctions} `{PyBuiltins}.

Lemma levenshtein_search_from_candidate db q max_distance r :
  r ∈ levenshtein_search db q max_distance ->
  exists c, c ∈ levenshtein_candidates db q
            /\ levenshtein_kept q max_distance c = Some r.
Proof.
  rewrite levenshtein_search_unfold. intros Hr%subseteq_take.
  apply stable_sort_elem in Hr. apply list_elem_of_omap in Hr as (c & Hc & Hr).
  now exists c.
Qed.

Lemma levenshtein_kept_spec q max_distance c r :
  levenshtein_kept q max_distance c = Some r <->
  exists d, py_min (field_distances q c) = Some d
            /\ (d <= max_distance)%nat /\ r = set_distance c d.
Proof.
  unfold levenshtein_kept. destruct (py_min _) as [m|].
  - destruct (m <=? max_distance)%nat eqn:Hm.
    + apply Nat.leb_le in Hm. split.
      * intros [= <-]. now exists m.
      * intros (d & [= <-] & _ & ->). reflexivity.
    + apply Nat.leb_gt in Hm. split; [discriminate|].
      intros (d & [= <-] & Hd & _). lia.
  - split; [discriminate | intros (d & [=] & _)].
Qed.

(** C6 (amended).  For every query whose first three characters (the whole
    query when it is shorter) contain none of [%], [_] and backslash, the
    EditDistance strategy considers exactly the rows in which first_name,
    last_name or full_name starts, up to case, with those characters, and
    every row it returns comes from such a row. *)
Theorem levenshtein_candidates_prefix (db : list person) (q : string)
    (max_distance : nat) :
  Sql.like_plain (first_chars q) = true ->
  first_chars q = Utf8.take 3 q
  /\ ((3 <= Utf8.length q)%nat -> Utf8.length (first_chars q) = 3%nat)
  /\ ((Utf8.length q < 3)%nat -> first_chars q = q)
  /\ levenshtein_candidates db q
     = filter (fun r => prefix_where (first_chars q) r = true) db
  /\ (forall r, prefix_where (first_chars q) r = true <->
        Str.starts_with (Str.lower (first_chars q)) (Str.lower (first_name r))
        \/ Str.starts_with (Str.lower (first_chars q)) (Str.lower (last_name r))
        \/ Str.starts_with (Str.lower (first_chars q)) (Str.lower (full_name r)))
  /\ (forall r, r ∈ levenshtein_search db q max_distance ->
        exists c d, c ∈ db /\ prefix_where (first_chars q) c = true
                    /\ r = set_distance c d).
Proof.
  intros Hq.
  assert (levenshtein_candidates db q
          = filter (fun r => prefix_where (first_chars q) r = true) db) as Hcand.
  { unfold levenshtein_candidates. apply list_filter_iff. intros r.
    now rewrite prefix_where_plain. }
  split; [apply first_chars_take|].
  split; [intros Hlen; rewrite first_chars_take; now apply utf8_take_length|].
  split.
  { intros Hlen. unfold first_chars.
    destruct (3 <=? Utf8.length q)%nat eqn:E; [|reflexivity].
    apply Nat.leb_le in E. lia. }
  split; [exact Hcand|].
  split.
  { intros r. unfold prefix_where. rewrite !orb_true_iff, !ci_startswith_spec. tauto. }
  intros r (c & Hc & Hr)%levenshtein_search_from_candidate.
  rewrite Hcand in Hc. apply list_elem_of_filter in Hc as [Hp Hc].
  apply levenshtein_kept_spec in Hr as (d & _ & _ & ->).
  now exists c, d.
Qed.

End Candidates.

(** An instance of C6: the seeded rows searched for [MaryAnn]. *)
Lemma levenshtein_candidates_prefix_witness :
  levenshtein_candidates seeded "MaryAnn"
  = filter (fun r => prefix_where (first_chars "MaryAnn") r = true) seeded.
Proof.
  apply (levenshtein_candidates_prefix seeded "MaryAnn" 3). reflexivity.
Defined.

(** The prefix is cut at code points, not at bytes: the first letter of
    [Lukasz] written with a stroke takes two bytes, and the prefix is its
    first three characters. *)
Example first_chars_code_points :
  first_chars (String "197" (String "129" "ukasz")) = String "197" (String "129" "uk")
  /\ Utf8.length (String "197" (String "129" "ukasz")) = 6%nat.
Proof. split; reflexivity. Qed.

(** C6, as stated, fails on a query with an underscore among its first three
    characters: [J_hn] has length 4, none of the names of John Smith starts
    with [J_h], and the strategy returns the row, at distance 1. *)
Lemma levenshtein_underscore_prefix :
  Utf8.length "J_hn" = 4%nat
  /\ levenshtein_search [row 1 "John" "Smith"] "J_hn" 3
     = [set_distance (row 1 "John" "Smith") 1]
  /\ ~ (Str.starts_with (Str.lower (Utf8.take 3 "J_hn")) (Str.lower "John")
        \/ Str.starts_with (Str.lower (Utf8.take 3 "J_hn")) (Str.lower "Smith")
        \/ Str.starts_with (Str.lower (Utf8.take 3 "J_hn")) (Str.lower "John Smith")).
Proof.
  split; [reflexivity|]. split; [reflexivity|].
  rewrite <- !startswith_spec. vm_compute. intros [|[|]]; discriminate.
Qed.

(** ** The EditDistance strategy *)

Lemma foldl_min_spec l x :
  (foldl Nat.min x l = x \/ foldl Nat.min x l ∈ l)
  /\ (foldl Nat.min x l <= x)%nat
  /\ Forall (fun y => (foldl Nat.min x l <= y)%nat) l.
Proof.
  revert x. induction l as [|y l IH]; intros x; simpl.
  - split; [now left|]. split; [lia | constructor].
  - destruct (IH (Nat.min x y)) as (Hin & Hle & Hall).
    split; [|split].
    + destruct Hin as [Heq | Hin].
      * rewrite Heq. destruct (Nat.min_dec x y) as [-> | ->];
          [now left | right; apply list_elem_of_here].
      * right. now apply list_elem_of_further.
    + lia.
    + constructor; [lia | exact Hall].
Qed.

Lemma py_min_spec l d : py_min l = Some d <-> is_min d l.
Proof.
  unfold is_min. destruct l as [|x l]; simpl.
  - split; [discriminate | now intros [?%elem_of_nil _]].
  - destruct (foldl_min_spec l x) as (Hin & Hle & Hall). split.
    + intros [= <-]. split.
      * destruct Hin as [-> | Hin]; [apply list_elem_of_here | now apply list_elem_of_further].
      * constructor; [exact Hle | exact Hall].
    + intros [Hd Hmin]. f_equal. apply Nat.le_antisymm.
      * apply elem_of_cons in Hd as [-> | Hd]; [exact Hle|].
        rewrite Forall_forall in Hall. now apply Hall.
      * apply Forall_cons in Hmin as [Hdx Hmin]. rewrite Forall_forall in Hmin.
        destruct Hin as [-> | Hin]; [exact Hdx | now apply Hmin].
Qed.

Section EditDistance.
Context `{SqlFunctions} `{PyBuiltins}.

Lemma field_distances_nonempty q c : field_distances q c = nonempty_distances q c.
Proof.
  unfold field_distances, nonempty_distances, nonempty_fields.
  destruct (first_name c), (last_name c), (full_name c); reflexivity.
Qed.

Lemma levenshtein_search_distance db q max_distance r :
  r ∈ levenshtein_search db q max_distance ->
  exists d, levenshtein_distance r = Some d /\ (d <= max_distance)%nat.
Proof.
  intros (c & _ & Hr)%levenshtein_search_from_candidate.
  apply levenshtein_kept_spec in Hr as (d & _ & Hd & ->). now exists d.
Qed.

End EditDistance.


(** ** The Normalized strategy *)

Lemma lower_filter_fixed p s :
  Str.lower s = s -> Str.lower (Str.filter p s) = Str.filter p s.
Proof.
  induction s as [|c s IH]; simpl; [reflexivity|].
  intros [= Hc Hs]. destruct (p c); simpl; [|now apply IH].
  now rewrite Hc, (IH Hs).
Qed.

Lemma lower_idempotent s : Str.lower (Str.lower s) = Str.lower s.
Proof. induction s as [|c s IH]; simpl; [reflexivity|]. now rewrite lower_lower, IH. Qed.

Lemma sql_normalize_lower f : Str.lower (sql_normalize f) = sql_normalize f.
Proof.
  unfold sql_normalize, Sql.REPLACE_del, Sql.LOWER.
  do 3 apply lower_filter_fixed. apply lower_idempotent.
Qed.

Lemma normalize_lower s : Str.lower (normalize_string s) = normalize_string s.
Proof. unfold normalize_string. apply lower_idempotent. Qed.

(** On its two lower-case operands, the comparison of the [WHERE] clause is
    equality. *)
Lemma normalized_eq f q :
  Sql.eq (sql_normalize f) (normalize_string q) = true
  <-> sql_normalize f = normalize_string q.
Proof.
  unfold Sql.eq. rewrite sql_normalize_lower, normalize_lower. apply String.eqb_eq.
Qed.

Lemma name_char_kept c :
  name_char c = true ->
  negb (Ascii.eqb (Char.lower c) " ") && negb (Ascii.eqb (Char.lower c) "'")
  && negb (Ascii.eqb (Char.lower c) "-") = Char.is_alnum c.
Proof. each_char c. Qed.

(** On names made of letters, digits, spaces, apostrophes and hyphens, the
    three [REPLACE]s of the query compute [normalize_string]. *)
Lemma sql_normalize_plain f :
  Str.all name_char f = true -> sql_normalize f = normalize_string f.
Proof.
  unfold sql_normalize, normalize_string, Sql.REPLACE_del, Sql.LOWER.
  induction f as [|c f IH]; simpl; [reflexivity|].
  intros [Hc Hf]%andb_prop. specialize (IH Hf).
  pose proof (name_char_kept c Hc) as Hk.
  destruct (Char.is_alnum c); simpl.
  - apply andb_prop in Hk as [[H1 H2]%andb_prop H3].
    rewrite H1. simpl. rewrite H2. simpl. rewrite H3. now rewrite IH.
  - destruct (Ascii.eqb (Char.lower c) " "); simpl; [exact IH|].
    destruct (Ascii.eqb (Char.lower c) "'"); simpl; [exact IH|].
    destruct (Ascii.eqb (Char.lower c) "-"); simpl; [exact IH | discriminate].
Qed.

Lemma normalized_where_plain q r :
  plain_names r = true ->
  normalized_where (normalize_string q) r = true <-> normalized_match q r.
Proof.
  unfold plain_names, normalized_where, normalized_match.
  intros [[H1 H2]%andb_prop H3]%andb_prop.
  rewrite !orb_true_iff, !normalized_eq, !sql_normalize_plain by assumption. tauto.
Qed.

Lemma filter_iff_Forall {A} (P Q : A -> Prop)
    `{!forall x, Decision (P x), !forall x, Decision (Q x)} l :
  Forall (fun x => P x <-> Q x) l -> filter P l = filter Q l.
Proof.
  induction 1 as [|x l Hx Hl IH]; [reflexivity|].
  rewrite !filter_cons, IH.
  destruct (decide (P x)), (decide (Q x)); tauto || reflexivity.
Qed.

(** C3 (amended).  On a table whose names consist of ASCII letters, digits,
    spaces, apostrophes and hyphens, the Normalized strategy returns the
    first 20 rows, in scan order, in which [normalize_string] of first_name,
    last_name or full_name equals [normalize_string] of the query, so every
    such row when there are at most 20.  A query whose normal form is empty
    is not rejected: it is compared like any other. *)
Theorem normalized_search_plain (db : list person) (q : string) :
  Forall (fun r => plain_names r = true) db ->
  normalized_search db q = take 20 (filter (normalized_match q) db)
  /\ (forall r, r ∈ normalized_search db q -> r ∈ db /\ normalized_match q r)
  /\ ((length (filter (normalized_match q) db) <= 20)%nat ->
      forall r, r ∈ db -> normalized_match q r -> r ∈ normalized_search db q).
Proof.
  intros Hdb.
  assert (normalized_search db q = take 20 (filter (normalized_match q) db)) as Heq.
  { unfold normalized_search. f_equal. apply filter_iff_Forall.
    eapply Forall_impl; [exact Hdb|]. intros r Hr. now apply normalized_where_plain. }
  split; [exact Heq|]. rewrite Heq. split.
  - intros r Hr%subseteq_take. apply list_elem_of_filter in Hr. tauto.
  - intros Hlen r Hr Hm. rewrite take_ge by exact Hlen.
    now apply list_elem_of_filter.
Qed.

(** An instance of C3: the first eighteen seeded rows searched for
    [MaryAnn]; the row Mary Ann is found through its full name. *)
Lemma normalized_search_plain_witness :
  normalized_search (take 18 seeded) "MaryAnn"
  = take 20 (filter (normalized_match "MaryAnn") (take 18 seeded)).
Proof.
  apply (normalized_search_plain (take 18 seeded) "MaryAnn"). compute_done.
Defined.

(** C3, as stated, fails on a query whose normal form is empty: the
    apostrophe is matched with the empty last name of a mononym. *)
Lemma normalized_empty_query_matches :
  normalize_string "'" = ""
  /\ normalized_search [row 1 "Cher" ""] "'" = [row 1 "Cher" ""].
Proof. split; reflexivity. Qed.

(** Outside the names of C3 the two normal forms differ: the seeded row
    St. James is not found by its own first name. *)
Example normalized_search_misses_period :
  row 19 "St." "James" ∈ seeded
  /\ normalize_string "St." = normalize_string (first_name (row 19 "St." "James"))
  /\ normalized_search seeded "St." = [].
Proof. repeat split; compute_done. Qed.

(** ** Empty queries *)

Lemma like_everything s : Sql.LIKE s "%%" = true.
Proof.
  unfold Sql.LIKE. induction s as [|c s IH]; rewrite like_percent_step.
  - reflexivity.
  - now rewrite like_any.
Qed.

Lemma filter_all {A} (P : A -> Prop) `{!forall x, Decision (P x)} (l : list A) :
  (forall x, P x) -> filter P l = l.
Proof.
  intros HP. induction l as [|x l IH]; [reflexivity|].
  rewrite filter_cons, IH. now destruct (decide (P x)) as [|[]].
Qed.


(** ** Truncation of the strategies *)

Lemma by_distance_total x y : by_distance x y = false -> by_distance y x = true.
Proof. unfold by_distance. rewrite Nat.leb_gt, Nat.leb_le. lia. Qed.

Lemma by_distance_trans x y z :
  by_distance x y = true -> by_distance y z = true -> by_distance x z = true.
Proof. unfold by_distance. rewrite !Nat.leb_le. lia. Qed.

Lemma StronglySorted_weaken {A} (R S : A -> A -> Prop) l :
  (forall a b, R a b -> S a b) -> StronglySorted R l -> StronglySorted S l.
Proof.
  intros HRS. induction 1 as [|a l Hl IH Ha]; constructor; [exact IH|].
  eapply Forall_impl; [exact Ha|]. intros b. apply HRS.
Qed.

(** C10.  Every strategy truncates its result before the fusion: Exact
    returns at most 10 rows, Normalized, Substring, Phonetic and EditDistance
    at most 20 each, the rows of EditDistance being sorted by ascending
    distance before the cut.  So a record that meets the condition of a
    strategy can be left without its weight: the last of 21 namesakes meets
    the five conditions, is returned by no strategy and has no score. *)
Theorem strategies_truncate :
  (forall (server : SqlFunctions) (text : PyBuiltins) (db : list person) (q : string)
          (max_distance : nat),
     (length (exact_search db q) <= 10)%nat
     /\ (length (normalized_search db q) <= 20)%nat
     /\ (length (wildcard_search db q) <= 20)%nat
     /\ (length (soundex_search db q) <= 20)%nat
     /\ (length (levenshtein_search db q max_distance) <= 20)%nat
     /\ exists sorted,
          levenshtein_search db q max_distance = take 20 sorted
          /\ sorted ≡ₚ omap (levenshtein_kept q max_distance) (levenshtein_candidates db q)
          /\ StronglySorted (fun a b => (distance_key a <= distance_key b)%nat) sorted)
  /\ (let r := row 21 "Ann" "Lee" in
      r ∈ namesakes
      /\ exact_where "Ann" r = true
      /\ normalized_where (normalize_string "Ann") r = true
      /\ like_where ("%" ++ "Ann" ++ "%") r = true
      /\ soundex_where "Ann" r = true
      /\ r ∈ levenshtein_candidates namesakes "Ann"
      /\ levenshtein_kept "Ann" 3 r = Some (set_distance r 0)
      /\ (id r ∉ id <$> exact_search namesakes "Ann")
      /\ (id r ∉ id <$> normalized_search namesakes "Ann")
      /\ (id r ∉ id <$> wildcard_search namesakes "Ann")
      /\ (id r ∉ id <$> soundex_search namesakes "Ann")
      /\ (id r ∉ id <$> levenshtein_search namesakes "Ann" 3)
      /\ (total_score namesakes "Ann" (id r) == 0)%Q).
Proof.
  split.
  - intros server text db q max_distance.
    unfold exact_search, normalized_search, wildcard_search, soundex_search.
    rewrite levenshtein_search_unfold, !length_take.
    repeat (split; [lia|]).
    eexists. split; [reflexivity|]. split; [apply stable_sort_perm|].
    apply (StronglySorted_weaken (fun a b => by_distance a b = true)).
    + intros a b Hab. now apply Nat.leb_le.
    + apply stable_sort_sorted; [apply by_distance_total | apply by_distance_trans].
  - cbv zeta. repeat split; compute_done.
Qed.

(** * Further properties *)

(** ** What [normalize_string] ignores *)

Lemma filter_app_str p a b : Str.filter p (a ++ b) = Str.filter p a ++ Str.filter p b.
Proof.
  induction a as [|c a IH]; simpl; [reflexivity|].
  destruct (p c); simpl; now rewrite IH.
Qed.

Lemma lower_app a b : Str.lower (a ++ b) = Str.lower a ++ Str.lower b.
Proof. induction a as [|c a IH]; simpl; [reflexivity|]. now rewrite IH. Qed.

Lemma normalize_app a b :
  normalize_string (a ++ b) = normalize_string a ++ normalize_string b.
Proof. unfold normalize_string. now rewrite filter_app_str, lower_app. Qed.

Lemma is_alnum_lower c : Char.is_alnum (Char.lower c) = Char.is_alnum c.
Proof. each_char c. Qed.

Lemma normalize_drops a b c :
  Char.is_alnum c = false ->
  normalize_string (a ++ String c b) = normalize_string (a ++ b).
Proof.
  intros Hc. rewrite !normalize_app. f_equal.
  unfold normalize_string. simpl. now rewrite Hc.
Qed.

Lemma normalize_letter_case a b d :
  normalize_string (a ++ String (Char.lower d) b) = normalize_string (a ++ String d b).
Proof.
  rewrite !normalize_app. f_equal.
  unfold normalize_string. simpl. rewrite is_alnum_lower.
  destruct (Char.is_alnum d); simpl; [|reflexivity]. now rewrite lower_lower.
Qed.

(** X1.  [normalize_string] distributes over concatenation, drops a
    character that is not an ASCII letter or digit wherever it stands, and
    does not tell an ASCII capital from its lower-case letter: names that
    differ only in the case of ASCII letters, in spacing and in punctuation
    have the same normal form. *)
Theorem normalize_ignores_separators (a b : string) (c d : ascii) :
  Char.is_alnum c = false ->
  normalize_string (a ++ b) = normalize_string a ++ normalize_string b
  /\ normalize_string (a ++ String c b) = normalize_string (a ++ b)
  /\ normalize_string (a ++ String (Char.lower d) b) = normalize_string (a ++ String d b).
Proof.
  intros Hc. split; [apply normalize_app|].
  split; [now apply normalize_drops | apply normalize_letter_case].
Qed.

Lemma normalize_ignores_separators_witness :
  normalize_string ("Mary" ++ String " " "Ann") = normalize_string ("Mary" ++ "Ann").
Proof.
  apply (normalize_ignores_separators "Mary" "Ann" " " "A"). reflexivity.
Defined.

(** X2.  The Normalized strategy returns the same rows when a character that
    is not an ASCII letter or digit is inserted anywhere in the query, and
    when an ASCII capital of the query is replaced by its lower-case
    letter. *)
Theorem normalized_search_ignores_separators (db : list person) (a b : string)
    (c d : ascii) :
  Char.is_alnum c = false ->
  normalized_search db (a ++ String c b) = normalized_search db (a ++ b)
  /\ normalized_search db (a ++ String (Char.lower d) b)
     = normalized_search db (a ++ String d b).
Proof.
  intros Hc. unfold normalized_search.
  now rewrite (normalize_drops a b c Hc), normalize_letter_case.
Qed.

Lemma normalized_search_ignores_separators_witness :
  normalized_search seeded ("Mary" ++ String " " "Ann")
  = normalized_search seeded ("Mary" ++ "Ann").
Proof.
  apply (normalized_search_ignores_separators seeded "Mary" "Ann" " " "A"). reflexivity.
Defined.

(** ** What the Normalized strategy cannot match *)

Lemma sql_normalize_app a b : sql_normalize (a ++ b) = sql_normalize a ++ sql_normalize b.
Proof.
  unfold sql_normalize, Sql.REPLACE_del, Sql.LOWER.
  now rewrite lower_app, !filter_app_str.
Qed.

Lemma all_app p a b : Str.all p (a ++ b) = Str.all p a && Str.all p b.
Proof.
  induction a as [|c a IH]; simpl; [reflexivity|].
  now rewrite IH, andb_assoc.
Qed.

Lemma foreign_char_survives c :
  name_char c = false ->
  sql_normalize (String c "") = String (Char.lower c) ""
  /\ Char.canonical (Char.lower c) = false.
Proof. each_char c. Qed.

(** A name with a character outside letters, digits, space, apostrophe and
    hyphen keeps a character that no normal form of a query contains. *)
Lemma sql_normalize_foreign f :
  Str.all name_char f = false -> Str.all Char.canonical (sql_normalize f) = false.
Proof.
  induction f as [|c f IH]; simpl; [discriminate|].
  change (String c f) with (String c "" ++ f). rewrite sql_normalize_app, all_app.
  destruct (name_char c) eqn:Hc; simpl.
  - intros Hf. rewrite (IH Hf). apply andb_false_r.
  - intros _. destruct (foreign_char_survives c Hc) as [-> Hl]. simpl. now rewrite Hl.
Qed.

(** X3.  On the side of the table the Normalized strategy deletes only
    spaces, apostrophes and hyphens: these are ignored wherever they stand in
    a name, and a name that contains any other character that is not a
    letter or digit is matched through that name by no query at all. *)
Theorem normalized_never_matches_punctuation (f q a b : string) :
  Str.all name_char f = false ->
  Sql.eq (sql_normalize f) (normalize_string q) = false
  /\ (forall d : ascii,
        d = " "%char \/ d = "'"%char \/ d = "-"%char ->
        sql_normalize (a ++ String d b) = sql_normalize (a ++ b)).
Proof.
  intros Hf. split.
  - apply not_true_is_false. intros Heq%normalized_eq.
    apply sql_normalize_foreign in Hf. rewrite Heq, normalize_canonical in Hf.
    discriminate.
  - intros d Hd. rewrite !sql_normalize_app. f_equal.
    change (String d b) with (String d "" ++ b). rewrite sql_normalize_app.
    destruct Hd as [-> | [-> | ->]]; reflexivity.
Qed.

Lemma normalized_never_matches_punctuation_witness :
  Sql.eq (sql_normalize "St.") (normalize_string "St.") = false.
Proof.
  apply (normalized_never_matches_punctuation "St." "St." "" ""). reflexivity.
Defined.

(** ** An exact match under the other strategies *)

Lemma startswith_take n s : Str.startswith (Utf8.take n s) s = true.
Proof.
  revert n. induction s as [|c s IH]; intros n; simpl; [reflexivity|].
  destruct (Char.is_continuation c); simpl.
  - now rewrite Ascii.eqb_refl, IH.
  - destruct n as [|n]; simpl; [reflexivity|]. now rewrite Ascii.eqb_refl, IH.
Qed.

Lemma startswith_refl s : Str.startswith s s = true.
Proof. induction s as [|c s IH]; simpl; [reflexivity|]. now rewrite Ascii.eqb_refl. Qed.

Lemma contains_refl s : Str.contains s s = true.
Proof. destruct s; simpl; [reflexivity|]. now rewrite Ascii.eqb_refl, startswith_refl. Qed.

Lemma lower_continuation c : Char.is_continuation (Char.lower c) = Char.is_continuation c.
Proof. each_char c. Qed.

Lemma lower_take n s : Str.lower (Utf8.take n s) = Utf8.take n (Str.lower s).
Proof.
  revert n. induction s as [|c s IH]; intros n; simpl; [reflexivity|].
  rewrite lower_continuation. destruct (Char.is_continuation c); simpl.
  - now rewrite IH.
  - destruct n as [|n]; simpl; [reflexivity|]. now rewrite IH.
Qed.

Lemma all_take p n s : Str.all p s = true -> Str.all p (Utf8.take n s) = true.
Proof.
  revert n. induction s as [|c s IH]; intros n; simpl; [reflexivity|].
  intros [Hc Hs]%andb_prop. destruct (Char.is_continuation c); simpl.
  - now rewrite Hc, IH.
  - destruct n as [|n]; simpl; [reflexivity|]. now rewrite Hc, IH.
Qed.

Lemma sql_eq_lower a q : Sql.eq a q = true -> Str.lower a = Str.lower q.
Proof. unfold Sql.eq. apply String.eqb_eq. Qed.

Lemma sql_eq_contains a q : Sql.eq a q = true -> Str.ci_contains q a = true.
Proof.
  intros Heq%sql_eq_lower. unfold Str.ci_contains. rewrite Heq. apply contains_refl.
Qed.

Lemma sql_eq_startswith a q :
  Sql.eq a q = true -> Str.ci_startswith (first_chars q) a = true.
Proof.
  intros Heq%sql_eq_lower. unfold Str.ci_startswith.
  rewrite Heq, first_chars_take, lower_take. apply startswith_take.
Qed.

Lemma exact_where_substring q r : exact_where q r = true -> substring_where q r = true.
Proof.
  unfold exact_where, substring_where. rewrite !orb_true_iff.
  intros [[H1 | H2] | H3]; [left; left | left; right | right]; now apply sql_eq_contains.
Qed.

Lemma exact_where_prefix q r :
  exact_where q r = true -> prefix_where (first_chars q) r = true.
Proof.
  unfold exact_where, prefix_where. rewrite !orb_true_iff.
  intros [[H1 | H2] | H3]; [left; left | left; right | right]; now apply sql_eq_startswith.
Qed.

Section ExactMatch.
Context `{SqlFunctions} `{PyBuiltins}.

(** X4.  For a query without [%], [_] and backslash, every row that
    [exact_search] returns also satisfies the condition of the Substring
    strategy, so that [wildcard_search] returns it unless more than 20 rows
    satisfy that condition, and is among the prefix-pruned candidates of the
    EditDistance strategy. *)
Theorem exact_match_is_substring_and_candidate (db : list person) (q : string)
    (r : person) :
  Sql.like_plain q = true ->
  r ∈ exact_search db q ->
  like_where ("%" ++ q ++ "%") r = true
  /\ ((length (filter (fun x => like_where ("%" ++ q ++ "%") x = true) db) <= 20)%nat ->
      r ∈ wildcard_search db q)
  /\ r ∈ levenshtein_candidates db q.
Proof.
  intros Hq Hr. unfold exact_search in Hr.
  apply subseteq_take, list_elem_of_filter in Hr as [Hex Hdb].
  assert (like_where ("%" ++ q ++ "%") r = true) as Hsub.
  { rewrite wildcard_where_plain by exact Hq. now apply exact_where_substring. }
  split; [exact Hsub|]. split.
  - intros Hlen. unfold wildcard_search. rewrite take_ge by exact Hlen.
    now apply list_elem_of_filter.
  - unfold levenshtein_candidates. apply list_elem_of_filter. split; [|exact Hdb].
    rewrite prefix_where_plain.
    + now apply exact_where_prefix.
    + rewrite first_chars_take. now apply all_take.
Qed.

End ExactMatch.

Lemma exact_match_is_substring_and_candidate_witness :
  row 2 "MaryAnn" "Smith" ∈ levenshtein_candidates seeded "MaryAnn".
Proof.
  apply (exact_match_is_substring_and_candidate seeded "MaryAnn" (row 2 "MaryAnn" "Smith"));
    [reflexivity | compute_done].
Defined.

(** ** The records that the fusion keeps *)

Lemma key_step_elem k seen key : k ∈ key_step seen key <-> k ∈ seen \/ k = key.
Proof.
  unfold key_step. destruct (bool_decide (key ∈ seen)) eqn:Hkey.
  - apply bool_decide_eq_true in Hkey. split; [now left|]. now intros [? | ->].
  - rewrite elem_of_app, list_elem_of_singleton. reflexivity.
Qed.

Lemma key_step_NoDup seen key : NoDup seen -> NoDup (key_step seen key).
Proof.
  intros Hseen. unfold key_step. destruct (bool_decide (key ∈ seen)) eqn:Hkey; [exact Hseen|].
  apply bool_decide_eq_false in Hkey. apply NoDup_app. split; [exact Hseen|].
  split; [|apply NoDup_singleton].
  intros x Hx ->%list_elem_of_singleton. contradiction.
Qed.

Lemma foldl_key_step_elem k keys seen :
  k ∈ foldl key_step seen keys <-> k ∈ seen \/ k ∈ keys.
Proof.
  revert seen. induction keys as [|key keys IH]; intros seen; simpl.
  - rewrite elem_of_nil. tauto.
  - rewrite IH, key_step_elem, elem_of_cons. tauto.
Qed.

Lemma foldl_key_step_NoDup keys seen :
  NoDup seen -> NoDup (foldl key_step seen keys).
Proof.
  revert seen. induction keys as [|key keys IH]; intros seen Hseen; simpl; [exact Hseen|].
  now apply IH, key_step_NoDup.
Qed.

Section Kept.
Context `{SqlFunctions} `{PyBuiltins}.

Lemma discovery_order_NoDup db q : NoDup (discovery_order db q).
Proof. apply foldl_key_step_NoDup. constructor. Qed.

Lemma ranking_perm db q : ranking db q ≡ₚ discovery_order db q.
Proof.
  unfold ranking, sorted_results. rewrite <- fused_keys.
  apply fmap_Permutation, stable_sort_perm.
Qed.

Lemma combined_search_ids db q : id <$> combined_search db q = take 10 (ranking db q).
Proof.
  unfold combined_search, ranking. rewrite <- list_fmap_compose, <- fmap_take.
  apply Forall_fmap_ext_1, Forall_forall. intros kv Hkv%sorted_results_elem.
  pose proof (fused_ok db q) as Hok. unfold fusion_ok in Hok.
  rewrite Forall_forall in Hok. now destruct (Hok kv Hkv).
Qed.

Lemma discovery_order_elem db q k :
  k ∈ discovery_order db q <->
  k ∈ id <$> exact_search db q \/ k ∈ id <$> normalized_search db q
  \/ k ∈ id <$> soundex_search db q \/ k ∈ id <$> wildcard_search db q
  \/ k ∈ id <$> levenshtein_search db q 3.
Proof.
  unfold discovery_order, first_occurrences.
  rewrite foldl_key_step_elem, !fmap_app, !elem_of_app, elem_of_nil. tauto.
Qed.

(** X5.  [combined_search] never returns two rows with the same id, whatever
    the table: the dictionary [results] holds one row per id. *)
Theorem combined_search_distinct_ids (db : list person) (q : string) :
  NoDup (id <$> combined_search db q).
Proof.
  rewrite combined_search_ids. eapply sublist_NoDup; [|apply sublist_take].
  rewrite ranking_perm. apply discovery_order_NoDup.
Qed.

(** X6.  The fused results are the records that at least one strategy
    returned: [combined_search] returns [min 10 n] rows when the strategies
    returned [n] distinct ids, and thus every such record when there are at
    most 10. *)
Theorem combined_search_covers_discoveries (db : list person) (q : string) :
  (forall k, k ∈ ranking db q <->
     k ∈ id <$> exact_search db q \/ k ∈ id <$> normalized_search db q
     \/ k ∈ id <$> soundex_search db q \/ k ∈ id <$> wildcard_search db q
     \/ k ∈ id <$> levenshtein_search db q 3)
  /\ length (combined_search db q) = Nat.min 10 (length (discovery_order db q))
  /\ ((length (discovery_order db q) <= 10)%nat ->
      forall k, k ∈ id <$> combined_search db q <->
        k ∈ id <$> exact_search db q \/ k ∈ id <$> normalized_search db q
        \/ k ∈ id <$> soundex_search db q \/ k ∈ id <$> wildcard_search db q
        \/ k ∈ id <$> levenshtein_search db q 3).
Proof.
  split; [|split].
  - intros k. rewrite ranking_perm. apply discovery_order_elem.
  - rewrite <- (length_fmap id), combined_search_ids, length_take.
    now rewrite (Permutation_length (ranking_perm db q)).
  - intros Hlen k. rewrite combined_search_ids, take_ge.
    + rewrite ranking_perm. apply discovery_order_elem.
    + now rewrite (Permutation_length (ranking_perm db q)).
Qed.

End Kept.

(** ** The two dictionaries have the same keys *)

Lemma score_add_is_Some key w scores k :
  is_Some (score_add key w scores !! k) <-> is_Some (scores !! k) \/ k = key.
Proof.
  unfold score_add. rewrite lookup_insert_is_Some.
  destruct (decide (key = k)) as [-> | Hne]; [tauto|].
  split; [intros [? | [_ ?]]; [congruence | tauto]|].
  intros [? | ->]; [right; now split | contradiction].
Qed.

Lemma fold_scores_is_Some (step : fusion -> person -> fusion) (w : person -> Q) :
  (forall st r, (step st r).2 = score_add (id r) (w r) st.2) ->
  forall rows st k,
    is_Some ((foldl step st rows).2 !! k) <-> is_Some (st.2 !! k) \/ k ∈ id <$> rows.
Proof.
  intros Hstep rows. induction rows as [|r rows IH]; intros st k; simpl.
  - rewrite elem_of_nil. tauto.
  - rewrite IH, Hstep, score_add_is_Some, elem_of_cons. tauto.
Qed.

Section SameKeys.
Context `{SqlFunctions} `{PyBuiltins}.

Lemma fused_scores_is_Some db q k :
  is_Some ((fused db q).2 !! k) <-> k ∈ discovery_order db q.
Proof.
  rewrite discovery_order_elem. unfold fused.
  rewrite (fold_scores_is_Some fuse_levenshtein levenshtein_weight) by reflexivity.
  rewrite (fold_scores_is_Some (fuse_weighted 40) (fun _ => 40%Q)) by reflexivity.
  rewrite (fold_scores_is_Some (fuse_weighted 60) (fun _ => 60%Q)) by reflexivity.
  rewrite (fold_scores_is_Some (fuse_weighted 80) (fun _ => 80%Q)) by reflexivity.
  rewrite (fold_scores_is_Some fuse_exact (fun _ => 100%Q)) by reflexivity.
  simpl. rewrite lookup_empty, is_Some_alt. tauto.
Qed.

(** X7.  When the five loops of [combined_search] are done, [results] and
    [scores] have the same keys and every row of [results] is stored under
    its own id; so the lookup [scores[x[0]]] of the final sort never fails,
    and no score belongs to a record that is not a result. *)
Theorem results_and_scores_share_keys (db : list person) (q : string) :
  (forall k, is_Some ((fused db q).2 !! k) <-> k ∈ (fused db q).1.*1)
  /\ (forall k r, (k, r) ∈ (fused db q).1 -> id r = k)
  /\ NoDup (fused db q).1.*1.
Proof.
  split; [|split].
  - intros k. rewrite fused_keys. apply fused_scores_is_Some.
  - intros k r Hkr. pose proof (fused_ok db q) as Hok. unfold fusion_ok in Hok.
    rewrite Forall_forall in Hok. now destruct (Hok (k, r) Hkr).
  - rewrite fused_keys. apply discovery_order_NoDup.
Qed.

End SameKeys.

(** ** Bounds on the totals *)

Lemma weight_sum_nonneg (w : person -> Q) rows k :
  (forall r, r ∈ rows -> (0 <= w r)%Q) -> (0 <= weight_sum w rows k)%Q.
Proof.
  induction rows as [|r rows IH]; intros Hw; simpl; [apply Qle_refl|].
  assert (0 <= weight_sum w rows k)%Q as Hrest.
  { apply IH. intros x Hx. apply Hw. now apply list_elem_of_further. }
  destruct (bool_decide (id r = k)); [|exact Hrest].
  rewrite <- (Qplus_0_r 0). apply Qplus_le_compat; [|exact Hrest].
  apply Hw, list_elem_of_here.
Qed.

Lemma weight_sum_lower (w : person -> Q) (m : Q) rows k :
  (0 <= m)%Q -> (forall r, r ∈ rows -> (m <= w r)%Q) ->
  k ∈ id <$> rows -> (m <= weight_sum w rows k)%Q.
Proof.
  intros Hm. induction rows as [|r rows IH]; intros Hw Hk; simpl.
  - now apply elem_of_nil in Hk.
  - assert (forall x, x ∈ rows -> (m <= w x)%Q) as Hw'.
    { intros x Hx. apply Hw. now apply list_elem_of_further. }
    assert (0 <= weight_sum w rows k)%Q as Hrest.
    { apply weight_sum_nonneg. intros x Hx. eapply Qle_trans; [exact Hm | now apply Hw']. }
    destruct (bool_decide (id r = k)) eqn:Hr.
    + rewrite <- (Qplus_0_r m). apply Qplus_le_compat; [|exact Hrest].
      apply Hw, list_elem_of_here.
    + apply bool_decide_eq_false in Hr. apply IH; [exact Hw'|].
      rewrite fmap_cons in Hk. apply elem_of_cons in Hk as [-> | Hk]; [contradiction | exact Hk].
Qed.

Lemma credit_bounds (w : Q) rows k : (0 <= w)%Q -> (0 <= credit w rows k <= w)%Q.
Proof.
  intros Hw. unfold credit. destruct (bool_decide _); split;
    try apply Qle_refl; exact Hw.
Qed.

Lemma levenshtein_weight_bounds r d :
  levenshtein_distance r = Some d -> (d <= 3)%nat ->
  (15 # 2 <= levenshtein_weight r <= 30)%Q.
Proof.
  intros Hd Hle. unfold levenshtein_weight. rewrite Hd. simpl.
  destruct d as [|[|[|[|d]]]]; [| | | |lia]; split; vm_compute; discriminate.
Qed.

Section Bounds.
Context `{SqlFunctions} `{PyBuiltins}.

Lemma levenshtein_rows_weight db q r :
  r ∈ levenshtein_search db q 3 -> (15 # 2 <= levenshtein_weight r <= 30)%Q.
Proof.
  intros (d & Hd & Hle)%levenshtein_search_distance.
  now apply (levenshtein_weight_bounds r d).
Qed.

Lemma levenshtein_credit_bounds db q k :
  (0 <= levenshtein_credit (levenshtein_search db q 3) k <= 30)%Q.
Proof.
  unfold levenshtein_credit.
  destruct (List.find _ _) as [r|] eqn:Hr; simpl; [|split; vm_compute; discriminate].
  apply find_some in Hr as [Hin _]. apply list_elem_of_In in Hin.
  destruct (levenshtein_rows_weight db q r Hin) as [Hlo Hhi].
  split; [|exact Hhi]. eapply Qle_trans; [|exact Hlo]. vm_compute; discriminate.
Qed.

(** X8.  The total of a record that some strategy returned is at least 7.5
    (the weight of an edit distance of 3, the least of all the weights), and
    with distinct record ids at most 310 = 100 + 80 + 60 + 40 + 30; a record
    that no strategy returned has no score, and [scores.get] gives 0. *)
Theorem total_score_bounds (db : list person) (q : string) (k : Z) :
  (k ∈ ranking db q -> (15 # 2 <= total_score db q k)%Q)
  /\ (k ∉ ranking db q -> (fused db q).2 !! k = None /\ total_score db q k = 0%Q)
  /\ (NoDup (id <$> db) -> (total_score db q k <= 310)%Q).
Proof.
  assert (forall (w : Q) rows, (0 <= w)%Q -> (0 <= weight_sum (fun _ => w) rows k)%Q) as Hpos.
  { intros w rows Hw. apply weight_sum_nonneg. now intros. }
  assert (0 <= weight_sum levenshtein_weight (levenshtein_search db q 3) k)%Q as HposL.
  { apply weight_sum_nonneg. intros r Hr%levenshtein_rows_weight.
    eapply Qle_trans; [|apply Hr]. vm_compute; discriminate. }
  assert (forall (w : Q) rows, (15 # 2 <= w)%Q -> k ∈ id <$> rows ->
            (15 # 2 <= weight_sum (fun _ => w) rows k)%Q) as Hlow.
  { intros w rows Hw Hk. apply weight_sum_lower; [vm_compute; discriminate | now intros | exact Hk]. }
  split; [|split].
  - rewrite ranking_perm, discovery_order_elem, total_score_sum.
    pose proof (Hpos 100%Q (exact_search db q)) as H1.
    pose proof (Hpos 80%Q (normalized_search db q)) as H2.
    pose proof (Hpos 60%Q (soundex_search db q)) as H3.
    pose proof (Hpos 40%Q (wildcard_search db q)) as H4.
    specialize (H1 ltac:(vm_compute; discriminate)).
    specialize (H2 ltac:(vm_compute; discriminate)).
    specialize (H3 ltac:(vm_compute; discriminate)).
    specialize (H4 ltac:(vm_compute; discriminate)).
    intros [Hk | [Hk | [Hk | [Hk | Hk]]]].
    + pose proof (Hlow 100%Q _ ltac:(vm_compute; discriminate) Hk). lra.
    + pose proof (Hlow 80%Q _ ltac:(vm_compute; discriminate) Hk). lra.
    + pose proof (Hlow 60%Q _ ltac:(vm_compute; discriminate) Hk). lra.
    + pose proof (Hlow 40%Q _ ltac:(vm_compute; discriminate) Hk). lra.
    + assert (15 # 2 <= weight_sum levenshtein_weight (levenshtein_search db q 3) k)%Q.
      { apply weight_sum_lower; [vm_compute; discriminate | | exact Hk].
        intros r Hr. now apply levenshtein_rows_weight in Hr as [? _]. }
      lra.
  - rewrite ranking_perm. intros Hk.
    assert ((fused db q).2 !! k = None) as Hnone.
    { apply eq_None_not_Some. now rewrite fused_scores_is_Some. }
    split; [exact Hnone|]. unfold total_score, score_get. now rewrite Hnone.
  - intros Hdb. rewrite total_score_credits by exact Hdb.
    pose proof (credit_bounds 100%Q (exact_search db q) k ltac:(vm_compute; discriminate)).
    pose proof (credit_bounds 80%Q (normalized_search db q) k ltac:(vm_compute; discriminate)).
    pose proof (credit_bounds 60%Q (soundex_search db q) k ltac:(vm_compute; discriminate)).
    pose proof (credit_bounds 40%Q (wildcard_search db q) k ltac:(vm_compute; discriminate)).
    pose proof (levenshtein_credit_bounds db q k).
    lra.
Qed.

End Bounds.

(** ** Which row represents a record *)

Lemma dict_setdefault_elem_new kv key r results :
  kv ∈ dict_setdefault key r results ->
  kv ∈ results \/ (kv = (key, r) /\ key ∉ results.*1).
Proof.
  unfold dict_setdefault. destruct (dict_mem key results) eqn:Hmem; [now left|].
  intros [Hin | ->%list_elem_of_singleton]%elem_of_app; [now left|].
  right. split; [reflexivity|]. rewrite <- dict_mem_elem, Hmem. discriminate.
Qed.

(** A loop that stores rows only under new keys adds, to the entries it
    finds, rows of its list under ids that were not keys before. *)
Lemma setdefault_fold_elem (step : fusion -> person -> fusion) :
  (forall st r, (step st r).1 = dict_setdefault (id r) r st.1) ->
  forall rows st kv,
    kv ∈ (foldl step st rows).1 ->
    kv ∈ st.1 \/ exists r, r ∈ rows /\ kv = (id r, r) /\ id r ∉ st.1.*1.
Proof.
  intros Hstep rows. induction rows as [|r rows IH]; intros st kv; simpl; [now left|].
  intros [Hkv | (r' & Hr' & -> & Hnew)]%IH.
  - rewrite Hstep in Hkv. apply dict_setdefault_elem_new in Hkv as [Hkv | [-> Hnew]].
    + now left.
    + right. exists r. split; [apply list_elem_of_here | now split].
  - right. exists r'. split; [now apply list_elem_of_further|]. split; [reflexivity|].
    intros Hin. apply Hnew. rewrite Hstep, dict_setdefault_keys, key_step_elem. now left.
Qed.

Section Representative.
Context `{SqlFunctions} `{PyBuiltins}.

Lemma fuse_exact_elem rows st kv :
  kv ∈ (foldl fuse_exact st rows).1 ->
  kv ∈ st.1 \/ exists r, r ∈ rows /\ kv = (id r, r).
Proof.
  revert st. induction rows as [|r rows IH]; intros st; simpl; [now left|].
  intros [Hkv | (r' & Hr' & ->)]%IH.
  - apply dict_set_elem in Hkv as [Hkv | ->]; [now left|].
    right. exists r. split; [apply list_elem_of_here | reflexivity].
  - right. exists r'. split; [now apply list_elem_of_further | reflexivity].
Qed.

Lemma fuse_weighted_elem w rows st kv :
  kv ∈ (foldl (fuse_weighted w) st rows).1 ->
  kv ∈ st.1 \/ exists r, r ∈ rows /\ kv = (id r, r).
Proof.
  intros [Hkv | (r & Hr & -> & _)]%(setdefault_fold_elem (fuse_weighted w));
    [now left | right; now exists r | reflexivity].
Qed.

Lemma found_before_levenshtein_db db q r :
  r ∈ found_before_levenshtein db q -> r ∈ db.
Proof.
  unfold found_before_levenshtein, exact_search, normalized_search, soundex_search,
    wildcard_search.
  rewrite !elem_of_app.
  intros [Hr | [Hr | [Hr | Hr]]]; apply subseteq_take, list_elem_of_filter in Hr; tauto.
Qed.

(** X9.  The row that [combined_search] returns for a record is the row as
    fetched from the table when one of the strategies Exact, Normalized,
    Phonetic and Substring returned the record; it is the row of
    [levenshtein_search], which carries a [levenshtein_distance] of at most
    3, only when none of these four returned it. *)
Theorem combined_search_row_origin (db : list person) (q : string) (r : person) :
  r ∈ combined_search db q ->
  (r ∈ found_before_levenshtein db q /\ r ∈ db)
  \/ ((id r ∉ id <$> found_before_levenshtein db q)
      /\ r ∈ levenshtein_search db q 3
      /\ exists c d, c ∈ db /\ (d <= 3)%nat /\ r = set_distance c d).
Proof.
  unfold combined_search. intros (kv & -> & Hkv)%list_elem_of_fmap.
  apply sorted_results_elem in Hkv. unfold fused in Hkv. cbv zeta in Hkv.
  apply (setdefault_fold_elem fuse_levenshtein) in Hkv; [|reflexivity].
  destruct Hkv as [Hkv | (r & Hr & -> & Hnew)].
  - left.
    assert (exists r, r ∈ found_before_levenshtein db q /\ kv = (id r, r)) as (r & Hr & ->).
    { unfold found_before_levenshtein.
      apply fuse_weighted_elem in Hkv as [Hkv | (r & Hr & ->)];
        [|exists r; rewrite !elem_of_app; tauto].
      apply fuse_weighted_elem in Hkv as [Hkv | (r & Hr & ->)];
        [|exists r; rewrite !elem_of_app; tauto].
      apply fuse_weighted_elem in Hkv as [Hkv | (r & Hr & ->)];
        [|exists r; rewrite !elem_of_app; tauto].
      apply fuse_exact_elem in Hkv as [Hkv | (r & Hr & ->)];
        [|exists r; rewrite !elem_of_app; tauto].
      now apply elem_of_nil in Hkv. }
    simpl. split; [exact Hr | now apply found_before_levenshtein_db in Hr].
  - right. simpl. split; [|split; [exact Hr|]].
    + intros Hin. apply Hnew.
      rewrite !fuse_weighted_keys, fuse_exact_keys, !foldl_key_step_elem.
      unfold found_before_levenshtein in Hin.
      rewrite !fmap_app, !elem_of_app in Hin. simpl. tauto.
    + destruct (levenshtein_search_from_candidate db q 3 r Hr) as (c & Hc & Hkept).
      apply levenshtein_kept_spec in Hkept as (d & _ & Hd & ->).
      exists c, d. split; [|now split].
      unfold levenshtein_candidates in Hc. apply list_elem_of_filter in Hc. tauto.
Qed.

End Representative.

Lemma combined_search_row_origin_witness :
  (row 2 "MaryAnn" "Smith" ∈ found_before_levenshtein seeded "MaryAnn"
   /\ row 2 "MaryAnn" "Smith" ∈ seeded)
  \/ ((id (row 2 "MaryAnn" "Smith") ∉ id <$> found_before_levenshtein seeded "MaryAnn")
      /\ row 2 "MaryAnn" "Smith" ∈ levenshtein_search seeded "MaryAnn" 3
      /\ exists c d, c ∈ seeded /\ (d <= 3)%nat /\ row 2 "MaryAnn" "Smith" = set_distance c d).
Proof.
  apply (combined_search_row_origin seeded "MaryAnn" (row 2 "MaryAnn" "Smith")).
  compute_done.
Defined.

(** ** Queries made of percent signs *)

Lemma like_all_percent n s : Sql.like_pattern (str_repeat "%" (S n)) s = true.
Proof.
  induction n as [|n IH]; [apply like_any|].
  change (str_repeat "%" (S (S n))) with (String "%" (str_repeat "%" (S n))).
  rewrite like_percent_step, IH. reflexivity.
Qed.

Lemma str_repeat_snoc c n : str_repeat c n ++ String c "" = str_repeat c (S n).
Proof.
  induction n as [|n IH]; [reflexivity|].
  change (str_repeat c (S n) ++ String c "")
    with (String c (str_repeat c n ++ String c "")).
  now rewrite IH.
Qed.

Lemma take_repeat_percent m n :
  Utf8.take m (str_repeat "%" n) = str_repeat "%" (Nat.min m n).
Proof.
  revert m. induction n as [|n IH]; intros m; simpl.
  - now rewrite Nat.min_0_r.
  - destruct m as [|m]; simpl; [reflexivity|]. now rewrite IH.
Qed.

(** X10.  A query that consists of percent signs only, the empty query
    included, prunes nothing: [wildcard_search] returns the first 20 rows of
    the table and every row is a candidate of [levenshtein_search]. *)
Theorem percent_query_matches_every_row (db : list person) (n : nat) :
  wildcard_search db (str_repeat "%" n) = take 20 db
  /\ levenshtein_candidates db (str_repeat "%" n) = db.
Proof.
  split.
  - unfold wildcard_search. f_equal. apply filter_all. intros r.
    unfold like_where, Sql.LIKE.
    change ("%" ++ str_repeat "%" n ++ "%")
      with (String "%" (str_repeat "%" n ++ String "%" "")).
    rewrite str_repeat_snoc.
    change (String "%" (str_repeat "%" (S n))) with (str_repeat "%" (S (S n))).
    now rewrite !like_all_percent.
  - unfold levenshtein_candidates. apply filter_all. intros r.
    unfold like_where, Sql.LIKE.
    rewrite first_chars_take, take_repeat_percent, str_repeat_snoc.
    now rewrite !like_all_percent.
Qed.

(** ** The interactive loop *)

Lemma leading_space_shorter s r :
  Str.leading_space s = Some r -> (String.length r < String.length s)%nat.
Proof.
  unfold Str.leading_space. destruct s as [|a [|b [|c s3]]]; simpl;
    repeat match goal with
           | |- context [if ?x then _ else _] => destruct x
           end; intros [= <-]; simpl; lia.
Qed.

Lemma lstrip_upto_clean n s :
  (String.length s <= n)%nat -> Str.leading_space (Str.lstrip_upto n s) = None.
Proof.
  revert s. induction n as [|n IH]; intros s Hlen; simpl.
  - destruct s; [reflexivity | simpl in Hlen; lia].
  - destruct (Str.leading_space s) as [r|] eqn:Hs; [|exact Hs].
    apply IH. apply leading_space_shorter in Hs. lia.
Qed.

Lemma lstrip_clean s : Str.leading_space (Str.lstrip s) = None.
Proof. now apply lstrip_upto_clean. Qed.

Lemma lstrip_fixed s : Str.leading_space s = None -> Str.lstrip s = s.
Proof.
  intros Hs. unfold Str.lstrip. destruct (String.length s); simpl; [reflexivity|].
  now rewrite Hs.
Qed.

Lemma rstrip_idempotent s : Str.rstrip (Str.rstrip s) = Str.rstrip s.
Proof.
  induction s as [|c s IH]; [reflexivity|].
  simpl. destruct (Str.is_space_point (String c (Str.rstrip s))) eqn:Hc; [reflexivity|].
  simpl. now rewrite IH, Hc.
Qed.

Lemma rstrip_prefix s : exists w, s = Str.rstrip s ++ w.
Proof.
  induction s as [|c s [w IH]]; [now exists ""|].
  change (Str.rstrip (String c s))
    with (if Str.is_space_point (String c (Str.rstrip s))
          then "" else String c (Str.rstrip s)).
  destruct (Str.is_space_point (String c (Str.rstrip s))).
  - now exists (String c s).
  - exists w. change (String c (Str.rstrip s) ++ w) with (String c (Str.rstrip s ++ w)).
    f_equal. exact IH.
Qed.

Lemma leading_space_app p w r :
  Str.leading_space p = Some r -> Str.leading_space (p ++ w) = Some (r ++ w).
Proof.
  unfold Str.leading_space. destruct p as [|a [|b [|c p3]]]; simpl;
    repeat match goal with
           | |- context [if ?x then _ else _] => destruct x
           end; try discriminate; now intros [= <-].
Qed.

Lemma leading_space_prefix p w :
  Str.leading_space (p ++ w) = None -> Str.leading_space p = None.
Proof.
  intros Hpw. destruct (Str.leading_space p) as [r|] eqn:Hp; [|reflexivity].
  rewrite (leading_space_app p w r Hp) in Hpw. discriminate.
Qed.

(** Trimming leaves nothing to trim. *)
Lemma strip_idempotent s : Str.strip (Str.strip s) = Str.strip s.
Proof.
  unfold Str.strip. destruct (rstrip_prefix (Str.lstrip s)) as [w Hw].
  rewrite (lstrip_fixed (Str.rstrip (Str.lstrip s))).
  - apply rstrip_idempotent.
  - apply (leading_space_prefix _ w). rewrite <- Hw. apply lstrip_clean.
Qed.

(** White space outside ASCII is trimmed like the blank: a no-break space
    before the term and a next-line character after it. *)
Example strip_no_break_space :
  Str.strip (String "194" (String "160" ("  Ann " ++ String "194" (String "133" ""))))
  = "Ann".
Proof. reflexivity. Qed.

Section Interactive.
Context `{SqlFunctions} `{PyBuiltins}.

Lemma py_lower_empty : py_lower "" = "".
Proof. now rewrite py_lower_ascii. Qed.

Lemma interactive_turn_cases db line :
  (interactive_turn db line = Quit /\ py_lower (Str.strip line) = "quit")
  \/ (interactive_turn db line = Skipped /\ Str.strip line = "")
  \/ (interactive_turn db line
      = Displayed (Str.strip line) (Returns (combined_search db (Str.strip line)))
      /\ Str.strip line <> "" /\ py_lower (Str.strip line) <> "quit").
Proof.
  unfold interactive_turn, combined_search_call.
  destruct (String.eqb (py_lower (Str.strip line)) "quit") eqn:Hq.
  - left. split; [reflexivity | now apply String.eqb_eq].
  - apply String.eqb_neq in Hq. right.
    destruct (Str.strip line) as [|c t] eqn:Hs; simpl.
    + left. now split.
    + right. split; [reflexivity|]. split; [discriminate | exact Hq].
Qed.

(** X11.  The interactive loop passes to [combined_search] only search terms
    that are trimmed, not empty and not the word quit once put in lower
    case; it skips blank lines; and it stops at the first line that reads
    quit once trimmed and put in lower case, so that nothing typed after it
    is searched. *)
Theorem interactive_search_turns (db : list person) (inputs : list string) :
  (length (interactive_search db inputs) <= length inputs)%nat
  /\ (forall t, t ∈ interactive_search db inputs ->
        t = Skipped
        \/ exists line, line ∈ inputs
             /\ t = Displayed (Str.strip line)
                      (Returns (combined_search db (Str.strip line)))
             /\ Str.strip line <> ""
             /\ Str.strip (Str.strip line) = Str.strip line
             /\ py_lower (Str.strip line) <> "quit")
  /\ (forall line rest,
        py_lower (Str.strip line) = "quit" ->
        interactive_search db (inputs ++ line :: rest)%list
        = interactive_search db inputs).
Proof.
  split; [|split].
  - induction inputs as [|line inputs IH]; simpl; [lia|].
    destruct (interactive_turn db line); simpl; lia.
  - induction inputs as [|line inputs IH]; intros t; simpl; [now intros ?%elem_of_nil|].
    assert (t ∈ interactive_search db inputs ->
            t = Skipped \/ exists l, l ∈ line :: inputs
              /\ t = Displayed (Str.strip l) (Returns (combined_search db (Str.strip l)))
              /\ Str.strip l <> "" /\ Str.strip (Str.strip l) = Str.strip l
              /\ py_lower (Str.strip l) <> "quit") as Hrest.
    { intros [-> | (l & Hl & Ht)]%IH; [now left|].
      right. exists l. split; [now apply list_elem_of_further | exact Ht]. }
    destruct (interactive_turn_cases db line)
      as [[-> _] | [[-> _] | (-> & Hne & Hq)]].
    + now intros ?%elem_of_nil.
    + intros [-> | Ht]%elem_of_cons; [now left | now apply Hrest].
    + intros [-> | Ht]%elem_of_cons; [|now apply Hrest].
      right. exists line. split; [apply list_elem_of_here|].
      split; [reflexivity|]. split; [exact Hne|]. split; [apply strip_idempotent | exact Hq].
  - intros line rest Hquit.
    assert (interactive_turn db line = Quit) as Hturn.
    { destruct (interactive_turn_cases db line)
        as [[-> _] | [[_ Hs] | (_ & _ & Hq)]]; [reflexivity | | contradiction].
      rewrite Hs, py_lower_empty in Hquit. discriminate. }
    induction inputs as [|l inputs IH]; simpl; [now rewrite Hturn|].
    destruct (interactive_turn db l); [reflexivity | now rewrite IH | now rewrite IH].
Qed.

End Interactive.

(** ** [display_results] *)

Lemma utf8_length_app a b : Utf8.length (a ++ b) = (Utf8.length a + Utf8.length b)%nat.
Proof.
  induction a as [|c a IH]; simpl; [reflexivity|].
  destruct (Char.is_continuation c); now rewrite IH.
Qed.

Lemma utf8_length_spaces n : Utf8.length (str_repeat " " n) = n.
Proof. induction n as [|n IH]; simpl; [reflexivity|]. now rewrite IH. Qed.

Lemma utf8_length_ljust w s : Utf8.length (ljust w s) = Nat.max w (Utf8.length s).
Proof. unfold ljust. rewrite utf8_length_app, utf8_length_spaces. lia. Qed.

(** X12.  [display_results] never cuts a column: counted in characters, the
    line of a row is as long as the widths 6, 20, 20 and 30 or the longer
    fields require, plus the three separating spaces, hence 79 characters,
    like the line of dashes above it, exactly when every field fits its
    column.  (The line of column titles is printed after a newline
    character, which makes 80.) *)
Theorem display_row_length (r : person) :
  Utf8.length (display_row r)
  = (Nat.max 6 (Utf8.length (str_int (id r))) + 1
     + Nat.max 20 (Utf8.length (first_name r)) + 1
     + Nat.max 20 (Utf8.length (last_name r)) + 1
     + Nat.max 30 (Utf8.length (full_name r)))%nat
  /\ (79 <= Utf8.length (display_row r))%nat
  /\ (Utf8.length (display_row r) = 79%nat <->
      (Utf8.length (str_int (id r)) <= 6
       /\ Utf8.length (first_name r) <= 20
       /\ Utf8.length (last_name r) <= 20
       /\ Utf8.length (full_name r) <= 30)%nat)
  /\ Utf8.length <$> display_columns = [80; 79]%nat.
Proof.
  assert (Utf8.length (display_row r)
          = (Nat.max 6 (Utf8.length (str_int (id r))) + 1
             + Nat.max 20 (Utf8.length (first_name r)) + 1
             + Nat.max 20 (Utf8.length (last_name r)) + 1
             + Nat.max 30 (Utf8.length (full_name r)))%nat) as Hlen.
  { unfold display_row. rewrite !utf8_length_app, !utf8_length_ljust. simpl. lia. }
  split; [exact Hlen|]. rewrite Hlen. split; [lia|]. split; [lia|].
  reflexivity.
Qed.

(** A name with a letter of two bytes is padded to its column like any
    other: four characters, the last one accented, get sixteen spaces. *)
Example ljust_counts_characters :
  ljust 20 ("Jos" ++ String "195" (String "169" ""))
  = "Jos" ++ String "195" (String "169" "") ++ str_repeat " " 16.
Proof. reflexivity. Qed.

Section Display.
Context `{SqlFunctions} `{PyBuiltins}.

(** X13.  [display_results] prints 6 strings for an empty list, the last one
    saying that nothing was found, and otherwise 7 strings followed by one
    line for each of the first 10 rows, while the line Results Found reports
    the whole length of the list.  Of the list that [combined_search]
    returns it shows every row. *)
Theorem display_results_lines (results : list person) (term method : string)
    (db : list person) (q : string) :
  display_results [] term method !! 5%nat = Some "No results found."
  /\ length (display_results [] term method) = 6%nat
  /\ (results <> [] ->
      display_results results term method
      = (display_header results term method ++ display_columns
         ++ (display_row <$> take 10 results))%list
      /\ length (display_results results term method)
         = (7 + Nat.min 10 (length results))%nat)
  /\ display_results results term method !! 3%nat
     = Some ("Results Found: " ++ str_nat (length results))
  /\ (combined_search db q <> [] ->
      drop 7 (display_results (combined_search db q) term method)
      = display_row <$> combined_search db q).
Proof.
  split; [reflexivity|]. split; [reflexivity|]. split; [|split].
  - intros Hne. destruct results as [|r results]; [contradiction|].
    split; [reflexivity|].
    unfold display_results.
    rewrite !length_app, length_fmap, length_take. reflexivity.
  - destruct results; reflexivity.
  - intros Hne. destruct (combined_search db q) as [|r rows] eqn:Hrows; [contradiction|].
    unfold display_results.
    change (drop 7 (display_header (r :: rows) term method ++ display_columns
                    ++ (display_row <$> take 10 (r :: rows)))%list)
      with (display_row <$> take 10 (r :: rows)).
    rewrite take_ge; [reflexivity|].
    rewrite <- Hrows. unfold combined_search. rewrite length_fmap, length_take. lia.
Qed.

End Display.

(** ** The table that [populate_database] builds *)

Lemma stored_ids data : id <$> stored data = Z.of_nat <$> seq 1 (length data).
Proof.
  apply list_eq. intros i. unfold stored.
  rewrite !list_lookup_fmap, list_lookup_imap.
  destruct (data !! i) as [t|] eqn:Ht; simpl.
  - rewrite lookup_seq_lt by (now apply lookup_lt_Some in Ht). reflexivity.
  - rewrite lookup_seq_ge by (now apply lookup_ge_None in Ht). reflexivity.
Qed.

Lemma stored_NoDup data : NoDup (id <$> stored data).
Proof.
  rewrite stored_ids. apply NoDup_fmap_2; [|apply NoDup_seq].
  intros x y. apply Nat2Z.inj.
Qed.

Section Populated.
Context `{PyBuiltins}.

Lemma populate_data_length draws : length (populate_data draws) = 1000%nat.
Proof. unfold populate_data. rewrite length_app, !length_fmap, length_seq. reflexivity. Qed.

Lemma populate_data_full_name draws :
  Forall (fun t => t.1.2 = t.1.1.1 ++ " " ++ t.1.1.2) (populate_data draws).
Proof.
  unfold populate_data. apply Forall_app. split; apply Forall_fmap, Forall_forall;
    intros; reflexivity.
Qed.

(** X14.  Whatever the random draws, the table that [populate_database]
    inserts has 1000 rows, the 20 special names first and in their order;
    with the key counting from 1 the ids are 1 to 1000, hence distinct; and
    in every row full_name is first_name, a space and last_name. *)
Theorem populate_table_shape (draws : nat -> draw) :
  length (stored (populate_data draws)) = 1000%nat
  /\ id <$> stored (populate_data draws) = Z.of_nat <$> seq 1 1000
  /\ NoDup (id <$> stored (populate_data draws))
  /\ (fun r => (first_name r, last_name r)) <$> take 20 (stored (populate_data draws))
     = special_names
  /\ Forall (fun r => full_name r = first_name r ++ " " ++ last_name r
                      /\ levenshtein_distance r = None)
       (stored (populate_data draws)).
Proof.
  split; [|split; [|split; [|split]]].
  - unfold stored. now rewrite length_imap, populate_data_length.
  - now rewrite stored_ids, populate_data_length.
  - apply stored_NoDup.
  - unfold populate_data, stored. rewrite imap_app, take_app_length'; [reflexivity|].
    now rewrite length_imap, length_fmap.
  - pose proof (populate_data_full_name draws) as Hdata.
    rewrite Forall_forall in Hdata. apply Forall_forall. intros r Hr.
    unfold stored in Hr. apply elem_of_lookup_imap in Hr as (i & t & -> & Ht).
    simpl. split; [|reflexivity]. apply Hdata. eapply list_elem_of_lookup_2, Ht.
Qed.

(** On a name of ASCII characters the case mapping is known. *)
Lemma email_part_ascii s :
  Str.all Char.is_ascii s = true ->
  email_part s
  = Str.filter (fun x => negb (Ascii.eqb x "'"))
      (Str.filter (fun x => negb (Ascii.eqb x " ")) (Str.lower s)).
Proof. intros Hs. unfold email_part. now rewrite py_lower_ascii. Qed.

(** X15.  The e-mail addresses that [populate_database] builds are not
    distinct, whatever the random draws: the special names John D'Souza and
    John DSouza (ids 3 and 4) get the same one.  In names of ASCII
    characters the address ignores every space and apostrophe. *)
Theorem populate_emails_collide (draws : nat -> draw) :
  email <$> stored (populate_data draws) !! 2%nat = Some "john.dsouza@example.com"
  /\ email <$> stored (populate_data draws) !! 3%nat = Some "john.dsouza@example.com"
  /\ ~ NoDup (email <$> stored (populate_data draws))
  /\ (forall (a b : string) (c : ascii),
        Str.all Char.is_ascii a = true -> Str.all Char.is_ascii b = true ->
        c = " "%char \/ c = "'"%char ->
        email_part (a ++ String c b) = email_part (a ++ b)).
Proof.
  assert (forall i t, ((fun n => data_row n.1 n.2) <$> special_names) !! i = Some t ->
            email <$> stored (populate_data draws) !! i = Some t.2) as Hrow.
  { intros i t Ht. unfold stored. rewrite list_lookup_imap. unfold populate_data.
    rewrite lookup_app_l by (eapply lookup_lt_Some, Ht). now rewrite Ht. }
  assert (email <$> stored (populate_data draws) !! 2%nat = Some "john.dsouza@example.com")
    as H2.
  { rewrite (Hrow 2%nat _ eq_refl). unfold data_row. simpl.
    now rewrite !email_part_ascii by reflexivity. }
  assert (email <$> stored (populate_data draws) !! 3%nat = Some "john.dsouza@example.com")
    as H3.
  { rewrite (Hrow 3%nat _ eq_refl). unfold data_row. simpl.
    now rewrite !email_part_ascii by reflexivity. }
  split; [exact H2|]. split; [exact H3|]. split.
  - intros Hnd. rewrite <- list_lookup_fmap in H2, H3.
    pose proof (NoDup_lookup _ _ _ _ Hnd H2 H3). discriminate.
  - intros a b c Ha Hb Hc.
    rewrite !email_part_ascii.
    + rewrite !lower_app, !filter_app_str. f_equal.
      change (String c b) with (String c "" ++ b).
      rewrite lower_app, !filter_app_str.
      destruct Hc as [-> | ->]; reflexivity.
    + now rewrite all_app, Ha, Hb.
    + rewrite all_app, Ha. simpl. rewrite Hb.
      destruct Hc as [-> | ->]; reflexivity.
Qed.

(** ** The searches of [run_test_searches] *)

(** Rows appended to the table do not displace a row that was returned. *)
Lemma normalized_search_extend (db rest : list person) q r :
  r ∈ normalized_search db q -> r ∈ normalized_search (db ++ rest) q.
Proof.
  unfold normalized_search. rewrite filter_app, take_app.
  intros Hr. apply elem_of_app. left. exact Hr.
Qed.

(** X16.  Whatever the random draws that fill the rest of the table, each
    search term of [test_cases] makes [normalized_search] return a row that
    has the expected variation as first_name, last_name or full_name; so
    [run_test_searches] reports results of the Normalized strategy for each
    of its test cases. *)
Theorem test_searches_find_variations (draws : nat -> draw) :
  Forall (fun tc =>
            exists r, r ∈ normalized_search (stored (populate_data draws)) tc.1
                      /\ has_name tc.2 r)
         test_cases.
Proof.
  assert (Forall (fun tc =>
            Exists (has_name tc.2)
              (normalized_search (stored ((fun n => data_row n.1 n.2) <$> special_names))
                 tc.1)) test_cases) as Hspecial by compute_done.
  eapply Forall_impl; [exact Hspecial|]. intros [term expected] Hex. simpl in *.
  apply Exists_exists in Hex as (r & Hr & Hname). exists r. split; [|exact Hname].
  unfold populate_data, stored. rewrite imap_app.
  now apply normalized_search_extend.
Qed.

End Populated.

(** ** The order and the cut of the EditDistance strategy *)

Section EditDistanceOrder.
Context `{SqlFunctions} `{PyBuiltins}.

Lemma kept_sorted q max_distance (candidates : list person) :
  StronglySorted (fun a b => (distance_key a <= distance_key b)%nat)
    (stable_sort by_distance (omap (levenshtein_kept q max_distance) candidates)).
Proof.
  apply (StronglySorted_weaken (fun a b => by_distance a b = true)).
  - intros a b Hab. now apply Nat.leb_le.
  - apply stable_sort_sorted; [apply by_distance_total | apply by_distance_trans].
Qed.

(** C7 (amended).  Among the prefix-pruned candidates the EditDistance
    strategy keeps a record exactly when the least of the distances from the
    lower-cased query to those of the lower-cased first_name, last_name and
    full_name that are not empty is at most 3, and attaches that distance.
    It returns the first 20 of the kept records in ascending order of
    distance, records at the same distance in scan order, so all of them
    when there are at most 20.  With distinct record ids, a returned record
    has 30 / (distance + 1) added to its total. *)
Theorem levenshtein_search_keeps (db : list person) (q : string) :
  NoDup (id <$> db) ->
  (forall c r, levenshtein_kept q 3 c = Some r <->
     exists d, is_min d (nonempty_distances q c) /\ (d <= 3)%nat
               /\ r = set_distance c d)
  /\ (exists sorted,
        levenshtein_search db q 3 = take 20 sorted
        /\ sorted ≡ₚ omap (levenshtein_kept q 3) (levenshtein_candidates db q)
        /\ StronglySorted (fun a b => (distance_key a <= distance_key b)%nat) sorted
        /\ forall d,
             filter (fun r => distance_key r = d) sorted
             = filter (fun r => distance_key r = d)
                 (omap (levenshtein_kept q 3) (levenshtein_candidates db q)))
  /\ StronglySorted (fun a b => (distance_key a <= distance_key b)%nat)
       (levenshtein_search db q 3)
  /\ ((length (omap (levenshtein_kept q 3) (levenshtein_candidates db q)) <= 20)%nat ->
      forall c r, c ∈ levenshtein_candidates db q ->
                  levenshtein_kept q 3 c = Some r ->
                  r ∈ levenshtein_search db q 3)
  /\ (forall r, r ∈ levenshtein_search db q 3 ->
        exists d, levenshtein_distance r = Some d /\ distance_key r = d /\ (d <= 3)%nat
          /\ (total_score db q (id r)
              == credit 100 (exact_search db q) (id r)
                 + credit 80 (normalized_search db q) (id r)
                 + credit 60 (soundex_search db q) (id r)
                 + credit 40 (wildcard_search db q) (id r)
                 + 30 / inject_Z (Z.of_nat d + 1))%Q).
Proof.
  intros Hdb. split; [|split; [|split; [|split]]].
  - intros c r. rewrite levenshtein_kept_spec.
    setoid_rewrite py_min_spec. now rewrite field_distances_nonempty.
  - exists (stable_sort by_distance
              (omap (levenshtein_kept q 3) (levenshtein_candidates db q))).
    split; [apply levenshtein_search_unfold|]. split; [apply stable_sort_perm|].
    split; [apply kept_sorted|].
    intros d. apply (stable_sort_filter by_distance (fun r => distance_key r = d)).
    intros a b Ha Hb. unfold by_distance. rewrite Ha, Hb. apply Nat.leb_refl.
  - rewrite levenshtein_search_unfold. apply StronglySorted_take, kept_sorted.
  - intros Hlen c r Hc Hr. rewrite levenshtein_search_unfold.
    rewrite take_ge by (now rewrite stable_sort_length).
    apply stable_sort_elem, list_elem_of_omap. now exists c.
  - intros r Hr.
    destruct (levenshtein_search_distance db q 3 r Hr) as (d & Hd & Hle).
    exists d. split; [exact Hd|]. split; [unfold distance_key; now rewrite Hd|].
    split; [exact Hle|].
    rewrite total_score_credits by exact Hdb.
    rewrite (levenshtein_credit_returned _ r)
      by (try apply levenshtein_search_NoDup; assumption).
    unfold levenshtein_weight. rewrite Hd. reflexivity.
Qed.

End EditDistanceOrder.

(** An instance of C7: the seeded rows searched for [MaryAnn]. *)
Lemma levenshtein_search_keeps_witness :
  StronglySorted (fun a b => (distance_key a <= distance_key b)%nat)
    (levenshtein_search seeded "MaryAnn" 3).
Proof.
  apply (levenshtein_search_keeps seeded "MaryAnn"). compute_done.
Defined.

(** C7, as stated, fails when more than 20 candidates are within distance 3:
    the last of 21 namesakes is a prefix-pruned candidate whose first name
    is at distance 0 from the query, and the strategy does not return it. *)
Lemma levenshtein_search_drops_close_candidate :
  row 21 "Ann" "Lee" ∈ levenshtein_candidates namesakes "Ann"
  /\ field_distances "Ann" (row 21 "Ann" "Lee") = [0; 3; 4]%nat
  /\ 21%Z ∉ id <$> levenshtein_search namesakes "Ann" 3.
Proof. repeat split; compute_done. Qed.

(** ** Totals of records returned by several strategies *)

Section Additive.
Context `{SqlFunctions} `{PyBuiltins}.

Lemma levenshtein_credit_lower db q k :
  k ∈ id <$> levenshtein_search db q 3 ->
  (15 # 2 <= levenshtein_credit (levenshtein_search db q 3) k)%Q.
Proof.
  intros (r & -> & Hr)%list_elem_of_fmap. unfold levenshtein_credit.
  destruct (List.find _ _) as [r'|] eqn:Hfind.
  - apply find_some in Hfind as [Hin _]. apply list_elem_of_In in Hin.
    now apply levenshtein_rows_weight in Hin as [? _].
  - exfalso. apply list_elem_of_In in Hr.
    pose proof (find_none _ _ Hfind r Hr) as Hid. simpl in Hid.
    now rewrite Z.eqb_refl in Hid.
Qed.

(** C5 (amended).  Scores are additive across strategies: with distinct
    record ids, the total of a record is the sum of the weights 100, 80, 60
    and 40 of the Exact, Normalized, Phonetic and Substring strategies that
    return it, plus 30 / (distance + 1) if the EditDistance strategy returns
    it at that distance.  A record returned by Exact and Normalized therefore
    totals at least 180, and exactly 180 only when no other strategy returns
    it; a record returned by Substring only totals 40, strictly less. *)
Theorem scores_additive (db : list person) (q : string) (k k' : Z) :
  NoDup (id <$> db) ->
  (total_score db q k
   == credit 100 (exact_search db q) k
      + credit 80 (normalized_search db q) k
      + credit 60 (soundex_search db q) k
      + credit 40 (wildcard_search db q) k
      + levenshtein_credit (levenshtein_search db q 3) k)%Q
  /\ (forall (w : Q) rows,
        (k ∈ id <$> rows -> credit w rows k = w)
        /\ (k ∉ id <$> rows -> credit w rows k = 0%Q))
  /\ (forall r, r ∈ levenshtein_search db q 3 ->
        exists d, levenshtein_distance r = Some d /\ (d <= 3)%nat
          /\ (levenshtein_credit (levenshtein_search db q 3) (id r)
              == 30 / inject_Z (Z.of_nat d + 1))%Q)
  /\ ((k ∉ id <$> levenshtein_search db q 3) ->
      levenshtein_credit (levenshtein_search db q 3) k = 0%Q)
  /\ (k ∈ id <$> exact_search db q ->
      k ∈ id <$> normalized_search db q ->
      (180 <= total_score db q k)%Q
      /\ ((total_score db q k == 180)%Q <->
          (k ∉ id <$> soundex_search db q)
          /\ (k ∉ id <$> wildcard_search db q)
          /\ (k ∉ id <$> levenshtein_search db q 3)))
  /\ ((k' ∉ id <$> exact_search db q) ->
      (k' ∉ id <$> normalized_search db q) ->
      (k' ∉ id <$> soundex_search db q) ->
      k' ∈ id <$> wildcard_search db q ->
      (k' ∉ id <$> levenshtein_search db q 3) ->
      (total_score db q k' == 40)%Q
      /\ (k ∈ id <$> exact_search db q ->
          k ∈ id <$> normalized_search db q ->
          (total_score db q k' < total_score db q k)%Q)).
Proof.
  intros Hdb.
  assert (forall k, k ∈ id <$> exact_search db q -> k ∈ id <$> normalized_search db q ->
            (180 <= total_score db q k)%Q) as Hlow.
  { intros j HE HN. rewrite total_score_credits by exact Hdb.
    rewrite (credit_returned _ _ _ HE), (credit_returned _ _ _ HN).
    pose proof (credit_bounds 60%Q (soundex_search db q) j ltac:(vm_compute; discriminate)).
    pose proof (credit_bounds 40%Q (wildcard_search db q) j ltac:(vm_compute; discriminate)).
    pose proof (levenshtein_credit_bounds db q j).
    lra. }
  split; [now apply total_score_credits|].
  split; [intros w rows; split; [apply credit_returned | apply credit_absent]|].
  split.
  { intros r Hr.
    destruct (levenshtein_search_distance db q 3 r Hr) as (d & Hd & Hle).
    exists d. split; [exact Hd|]. split; [exact Hle|].
    rewrite (levenshtein_credit_returned _ r)
      by (try apply levenshtein_search_NoDup; assumption).
    unfold levenshtein_weight. rewrite Hd. reflexivity. }
  split; [apply levenshtein_credit_absent|].
  split.
  - intros HE HN. split; [now apply Hlow|].
    rewrite total_score_credits by exact Hdb.
    rewrite (credit_returned _ _ _ HE), (credit_returned _ _ _ HN).
    split.
    + intros Htotal.
      pose proof (credit_bounds 60%Q (soundex_search db q) k ltac:(vm_compute; discriminate)) as HP.
      pose proof (credit_bounds 40%Q (wildcard_search db q) k ltac:(vm_compute; discriminate)) as HW.
      pose proof (levenshtein_credit_bounds db q k) as HL.
      split; [|split]; intros Hin.
      * rewrite (credit_returned _ _ _ Hin) in Htotal. lra.
      * rewrite (credit_returned _ _ _ Hin) in Htotal. lra.
      * pose proof (levenshtein_credit_lower db q k Hin). lra.
    + intros (HP & HW & HL).
      rewrite (credit_absent _ _ _ HP), (credit_absent _ _ _ HW),
        (levenshtein_credit_absent _ _ HL).
      reflexivity.
  - intros HE' HN' HP' HW' HL'.
    assert (total_score db q k' == 40)%Q as Hk'.
    { rewrite total_score_credits by exact Hdb.
      rewrite (credit_absent _ _ _ HE'), (credit_absent _ _ _ HN'),
        (credit_absent _ _ _ HP'), (credit_returned _ _ _ HW'),
        (levenshtein_credit_absent _ _ HL').
      reflexivity. }
    split; [exact Hk'|].
    intros HE HN. pose proof (Hlow k HE HN). lra.
Qed.

End Additive.

(** An instance of C5: in [backslash_table], searched for [a\b], record 21
    is returned by Exact and Normalized and by no other strategy (the
    backslash escapes the pattern of Substring and of the candidate scan),
    and record 22 by Substring only. *)
Lemma scores_additive_witness :
  (total_score backslash_table "a\b" 21 == 180
   /\ total_score backslash_table "a\b" 22 == 40
   /\ total_score backslash_table "a\b" 22 < total_score backslash_table "a\b" 21)%Q.
Proof.
  destruct (scores_additive backslash_table "a\b" 21 22)
    as (_ & _ & _ & _ & Hboth & Hsubstring); [compute_done|].
  destruct Hboth as [_ Hexactly]; [compute_done | compute_done |].
  destruct Hsubstring as [Hforty Hbelow]; [compute_done ..|].
  split; [apply Hexactly; repeat split; compute_done|].
  split; [exact Hforty|].
  apply Hbelow; compute_done.
Defined.

(** C5, as stated, fails: record 2 of [seeded] is returned by both Exact and
    Normalized for the query [MaryAnn], and its total is not 180 but 310,
    since Phonetic, Substring and EditDistance (at distance 0) return it
    too. *)
Lemma exact_and_normalized_total_310 :
  NoDup (id <$> seeded)
  /\ 2%Z ∈ id <$> exact_search seeded "MaryAnn"
  /\ 2%Z ∈ id <$> normalized_search seeded "MaryAnn"
  /\ (total_score seeded "MaryAnn" 2 == 310)%Q
  /\ ~ (total_score seeded "MaryAnn" 2 == 180)%Q.
Proof. repeat split; try compute_done; vm_compute; discriminate. Qed.

(** ** Blank lines and the empty query *)

Section EmptyQuery.
Context `{SqlFunctions} `{PyBuiltins}.

(** C2 (amended).  A line that is empty after trimming surrounding
    whitespace is skipped by the interactive loop, which runs no strategy on
    it and goes on to the next line; no error is raised.  [combined_search]
    itself does not validate its argument: for the empty string the Substring
    strategy matches every row and returns the first 20, so on a table that
    is not empty the search returns a result list that is not empty. *)
Theorem blank_line_skipped (db : list person) (line : string) (inputs : list string) :
  Str.strip line = "" ->
  interactive_turn db line = Skipped
  /\ interactive_search db (line :: inputs) = Skipped :: interactive_search db inputs
  /\ wildcard_search db "" = take 20 db
  /\ (db <> [] -> combined_search db "" <> []).
Proof.
  intros Hline.
  assert (interactive_turn db line = Skipped) as Hturn.
  { unfold interactive_turn. now rewrite Hline, py_lower_empty. }
  assert (wildcard_search db "" = take 20 db) as Hall.
  { unfold wildcard_search. f_equal. apply filter_all. intros r.
    unfold like_where. change ("%" ++ "" ++ "%") with "%%".
    now rewrite like_everything. }
  split; [exact Hturn|]. split; [simpl; now rewrite Hturn|].
  split; [exact Hall|].
  intros Hdb Hnone. destruct db as [|r db]; [now apply Hdb|].
  assert (id r ∈ ranking (r :: db) "") as Hr.
  { rewrite ranking_perm, discovery_order_elem, Hall.
    do 3 right. left. simpl. apply list_elem_of_here. }
  pose proof (combined_search_ids (r :: db) "") as Hids.
  rewrite Hnone in Hids. simpl in Hids.
  destruct (ranking (r :: db) "") as [|k ks]; [now apply elem_of_nil in Hr | discriminate].
Qed.

End EmptyQuery.

(** An instance of C2: a line of blanks typed to the interactive loop. *)
Lemma blank_line_skipped_witness :
  interactive_turn seeded "   " = Skipped.
Proof.
  apply (blank_line_skipped seeded "   " []). reflexivity.
Defined.

(** C2, as stated, fails: the search for the empty string does not end with
    an [InvalidQuery] error but returns the rows found by pattern. *)
Lemma empty_query_returns :
  Str.strip "" = ""
  /\ combined_search_call scanned_2_1 "" = Returns scanned_2_1
  /\ combined_search_call scanned_2_1 "" <> Raises "InvalidQuery".
Proof. split; [reflexivity|]. split; [vm_compute; reflexivity | discriminate]. Qed.
